(** * HTTP client trust configuration of package [utils] (http.go)

    A shallow embedding of [http.go]: the client factory ([GetHTTPClient] and
    its three variants), the Basic-Auth header codec ([BasicAuthHeader],
    [ParseBasicAuthHeader]) and the loopback classifier behind the dial
    switch ([isLocalAddr], [OutgoingAccessAllowed]).

    Go strings are byte sequences: they are modelled by [string], whose
    characters are 8-bit [ascii] values; a byte used as a number is a [Z] in
    [0, 256).  The pieces of Go's standard library that [http.go] calls
    ([encoding/base64], [strings.Fields], [strings.SplitN], [unicode/utf8],
    [net.SplitHostPort], [net.ParseIP], [http.Header]) are modelled as
    executable functions in the modules [Base64], [Utf8], [Strings], [Net]
    and [Http]; the X.509 parser is a parameter. *)

From Stdlib Require Import ZArith Lia Bool Ascii String List.
From stdpp Require Import base option list gmap strings.
Import ListNotations.

Local Open Scope string_scope.
Local Open Scope list_scope.

(** ** Bytes *)

(** [uint(b)] of a byte typed character. *)
Definition byteOf (c : ascii) : Z := Z.of_N (N_of_ascii c).

(** [byte(n)]: conversion of an integer to a byte keeps the low 8 bits. *)
Definition toByte (n : Z) : ascii := ascii_of_N (Z.to_N (n mod 256)).

(** [s[lo:]] and [s[lo:hi]]. *)
Fixpoint dropString (n : nat) (s : string) : string :=
  match n, s with
  | O, _ => s
  | S n', String _ s' => dropString n' s'
  | S _, EmptyString => EmptyString
  end.

Fixpoint takeString (n : nat) (s : string) : string :=
  match n, s with
  | S n', String c s' => String c (takeString n' s')
  | _, _ => EmptyString
  end.

Definition slice (s : string) (lo hi : nat) : string :=
  takeString (hi - lo) (dropString lo s).

(** ** unicode/utf8 and unicode *)

Module Utf8.

Local Open Scope Z_scope.

Definition RuneError : Z := 0xFFFD.

Definition between (lo hi b : Z) : bool := (lo <=? b) && (b <=? hi).

(** Bounds of a continuation byte. *)
Definition locb : Z := 0x80.
Definition hicb : Z := 0xBF.

(** The table [first] with [acceptRanges]: for a leading byte of a
    multi-byte sequence, the length of the sequence and the range the
    second byte must lie in; [None] for a byte that starts no sequence. *)
Definition first (s0 : Z) : option (nat * Z * Z) :=
  if between 0xC2 0xDF s0 then Some (2%nat, locb, hicb)
  else if s0 =? 0xE0 then Some (3%nat, 0xA0, hicb)
  else if between 0xE1 0xEC s0 then Some (3%nat, locb, hicb)
  else if s0 =? 0xED then Some (3%nat, locb, 0x9F)
  else if between 0xEE 0xEF s0 then Some (3%nat, locb, hicb)
  else if s0 =? 0xF0 then Some (4%nat, 0x90, hicb)
  else if between 0xF1 0xF3 s0 then Some (4%nat, locb, hicb)
  else if s0 =? 0xF4 then Some (4%nat, locb, 0x8F)
  else None.

(** [utf8.DecodeRuneInString]: the first rune of [s] and its width in
    bytes; invalid input gives [(RuneError, 1)], empty input
    [(RuneError, 0)]. *)
Definition DecodeRuneInString (s : string) : Z * nat :=
  match s with
  | EmptyString => (RuneError, 0%nat)
  | String c0 t0 =>
      let s0 := byteOf c0 in
      if s0 <? 0x80 then (s0, 1%nat)
      else
        match first s0 with
        | None => (RuneError, 1%nat)
        | Some (sz, lo, hi) =>
            if (String.length s <? sz)%nat then (RuneError, 1%nat)
            else
              match t0 with
              | EmptyString => (RuneError, 1%nat)
              | String c1 t1 =>
                  let s1 := byteOf c1 in
                  if negb (between lo hi s1) then (RuneError, 1%nat)
                  else if (sz <=? 2)%nat then
                    (Z.lor (Z.shiftl (Z.land s0 0x1F) 6) (Z.land s1 0x3F), 2%nat)
                  else
                    match t1 with
                    | EmptyString => (RuneError, 1%nat)
                    | String c2 t2 =>
                        let s2 := byteOf c2 in
                        if negb (between locb hicb s2) then (RuneError, 1%nat)
                        else if (sz <=? 3)%nat then
                          (Z.lor (Z.lor (Z.shiftl (Z.land s0 0x0F) 12)
                                        (Z.shiftl (Z.land s1 0x3F) 6))
                                 (Z.land s2 0x3F), 3%nat)
                        else
                          match t2 with
                          | EmptyString => (RuneError, 1%nat)
                          | String c3 _ =>
                              let s3 := byteOf c3 in
                              if negb (between locb hicb s3) then (RuneError, 1%nat)
                              else
                                (Z.lor (Z.lor (Z.lor (Z.shiftl (Z.land s0 0x07) 18)
                                                     (Z.shiftl (Z.land s1 0x3F) 12))
                                              (Z.shiftl (Z.land s2 0x3F) 6))
                                       (Z.land s3 0x3F), 4%nat)
                          end
                    end
              end
        end
  end.

(** [unicode.IsSpace]: in Latin-1 the characters tab, line feed, vertical
    tab, form feed, carriage return, space, U+0085 and U+00A0; beyond it
    the property White_Space. *)
Definition IsSpace (r : Z) : bool :=
  if r <=? 0xFF then
    (r =? 0x09) || (r =? 0x0A) || (r =? 0x0B) || (r =? 0x0C) || (r =? 0x0D)
    || (r =? 0x20) || (r =? 0x85) || (r =? 0xA0)
  else
    (r =? 0x1680) || between 0x2000 0x200A r || between 0x2028 0x2029 r
    || (r =? 0x202F) || (r =? 0x205F) || (r =? 0x3000).

(** The runes a [for i, r := range s] loop visits, each with the bytes it
    spans.  Every rune is at least one byte wide, so [fuel] equal to the
    length of [s] visits all of [s]. *)
Fixpoint runesFrom (fuel : nat) (s : string) : list (Z * string) :=
  match fuel with
  | O => []
  | S fuel' =>
      match s with
      | EmptyString => []
      | String _ _ =>
          let '(r, w) := DecodeRuneInString s in
          (r, takeString w s) :: runesFrom fuel' (dropString w s)
      end
  end.

Definition runes (s : string) : list (Z * string) :=
  runesFrom (String.length s) s.

(** The bytes of the runes, put together. *)
Definition runeBytes (rs : list (Z * string)) : string :=
  foldr (λ r acc, r.2 +:+ acc) EmptyString rs.

End Utf8.

(** ** Predicates on strings *)

(** Every character of a string satisfies [P]. *)
Fixpoint allChars (P : ascii → bool) (s : string) : bool :=
  match s with
  | EmptyString => true
  | String c s' => P c && allChars P s'
  end.

(** Some character of a string is [c]. *)
Fixpoint hasByte (c : ascii) (s : string) : bool :=
  match s with
  | EmptyString => false
  | String d s' => Ascii.eqb d c || hasByte c s'
  end.

(** No character of [s] is one of [cs]. *)
Definition noneOf (cs s : string) : bool :=
  allChars (λ c, negb (hasByte c cs)) s.

(** An ASCII character that is not white space, and one that is. *)
Definition plainChar (c : ascii) : bool :=
  (byteOf c <? 0x80)%Z && negb (Utf8.IsSpace (byteOf c)).

Definition blankChar (c : ascii) : bool :=
  (byteOf c <? 0x80)%Z && Utf8.IsSpace (byteOf c).

(** ** encoding/base64, [StdEncoding] *)

Module Base64.

Local Open Scope Z_scope.

Definition encodeStd : string :=
  "ABCDEFGHIJKLMNOPQRSTUVWXYZabcdefghijklmnopqrstuvwxyz0123456789+/".

(** [StdPadding] *)
Definition padChar : ascii := "="%char.

(** [enc.encode[i]], for [i] a 6-bit value. *)
Definition encodeAt (i : Z) : ascii :=
  match String.get (Z.to_nat i) encodeStd with
  | Some c => c
  | None => "000"%char
  end.

Fixpoint indexIn (c : ascii) (s : string) (i : Z) : option Z :=
  match s with
  | EmptyString => None
  | String d s' => if Ascii.eqb c d then Some i else indexIn c s' (i + 1)
  end.

(** [enc.decodeMap[c]]: the table is filled with [0xFF] and then
    [decodeMap[encoder[i]] = byte(i)] for each [i]. *)
Definition decodeMap (c : ascii) : Z :=
  match indexIn c encodeStd 0 with
  | Some i => i
  | None => 0xFF
  end.

(** [Encoding.Encode] followed by the conversion to a string
    ([EncodeToString]): three source bytes give four characters; a
    remainder of one or two bytes gives two or three characters and
    padding. *)
Fixpoint EncodeToString (src : string) : string :=
  match src with
  | EmptyString => EmptyString
  | String a (String b (String c rest)) =>
      let val := Z.lor (Z.lor (Z.shiftl (byteOf a) 16) (Z.shiftl (byteOf b) 8))
                       (byteOf c) in
      String (encodeAt (Z.land (Z.shiftr val 18) 0x3F))
        (String (encodeAt (Z.land (Z.shiftr val 12) 0x3F))
           (String (encodeAt (Z.land (Z.shiftr val 6) 0x3F))
              (String (encodeAt (Z.land val 0x3F)) (EncodeToString rest))))
  | String a (String b EmptyString) =>
      let val := Z.lor (Z.shiftl (byteOf a) 16) (Z.shiftl (byteOf b) 8) in
      String (encodeAt (Z.land (Z.shiftr val 18) 0x3F))
        (String (encodeAt (Z.land (Z.shiftr val 12) 0x3F))
           (String (encodeAt (Z.land (Z.shiftr val 6) 0x3F))
              (String padChar EmptyString)))
  | String a EmptyString =>
      let val := Z.shiftl (byteOf a) 16 in
      String (encodeAt (Z.land (Z.shiftr val 18) 0x3F))
        (String (encodeAt (Z.land (Z.shiftr val 12) 0x3F))
           (String padChar (String padChar EmptyString)))
  end.

(** The decoder skips carriage returns and line feeds wherever they stand. *)
Definition isNewline (c : ascii) : bool :=
  Ascii.eqb c "010"%char || Ascii.eqb c "013"%char.

Fixpoint skipNewlines (s : string) : string :=
  match s with
  | EmptyString => EmptyString
  | String c s' =>
      if isNewline c then skipNewlines s' else String c (skipNewlines s')
  end.

(** The 24-bit value of a quantum and its three bytes. *)
Definition quantumVal (d0 d1 d2 d3 : Z) : Z :=
  Z.lor (Z.lor (Z.lor (Z.shiftl d0 18) (Z.shiftl d1 12)) (Z.shiftl d2 6)) d3.

(** [Encoding.decode] on input without newlines, one quantum of four
    characters at a time.  [None] is [CorruptInputError]: a character
    outside the alphabet, padding in the first two places of a quantum, a
    lone [=] in the third place, anything after the padding, or input that
    stops inside a quantum (the standard encoding requires padding).  The
    standard encoding is not strict: bits left over in a padded quantum are
    dropped. *)
Fixpoint decodeQuanta (src : string) : option string :=
  match src with
  | EmptyString => Some EmptyString
  | String c0 (String c1 (String c2 (String c3 rest))) =>
      if Ascii.eqb c0 padChar || Ascii.eqb c1 padChar then None
      else
        let d0 := decodeMap c0 in
        let d1 := decodeMap c1 in
        if (d0 =? 0xFF) || (d1 =? 0xFF) then None
        else if Ascii.eqb c2 padChar then
          (* "==" is expected, and nothing after it *)
          if Ascii.eqb c3 padChar then
            match rest with
            | EmptyString =>
                let val := quantumVal d0 d1 0 0 in
                Some (String (toByte (Z.shiftr val 16)) EmptyString)
            | _ => None
            end
          else None
        else
          let d2 := decodeMap c2 in
          if d2 =? 0xFF then None
          else if Ascii.eqb c3 padChar then
            match rest with
            | EmptyString =>
                let val := quantumVal d0 d1 d2 0 in
                Some (String (toByte (Z.shiftr val 16))
                        (String (toByte (Z.shiftr val 8)) EmptyString))
            | _ => None
            end
          else
            let d3 := decodeMap c3 in
            if d3 =? 0xFF then None
            else
              let val := quantumVal d0 d1 d2 d3 in
              match decodeQuanta rest with
              | Some out =>
                  Some (String (toByte (Z.shiftr val 16))
                          (String (toByte (Z.shiftr val 8))
                             (String (toByte (Z.shiftr val 0)) out)))
              | None => None
              end
  | _ => None
  end.

(** [StdEncoding.DecodeString]; [None] stands for a non-nil error. *)
Definition DecodeString (s : string) : option string :=
  decodeQuanta (skipNewlines s).

(** What the decoder and [strings.Fields] need to know of a character of
    the alphabet: it is not the padding, not a newline, it is ASCII and
    not white space. *)
Definition alphabetic (c : ascii) : bool :=
  negb (Ascii.eqb c padChar) && negb (isNewline c)
  && (byteOf c <? 0x80) && negb (Utf8.IsSpace (byteOf c))
  && negb (decodeMap c =? 0xFF).

Definition sextets : list Z := map Z.of_nat (seq 0 64).

(** A character the encoder may write: one of the alphabet, or the
    padding. *)
Definition base64Char (c : ascii) : bool :=
  hasByte c encodeStd || Ascii.eqb c padChar.

End Base64.

(** ** strings *)

Module Strings.

(** The second loop of [strings.FieldsFunc]: [field] is [s[fieldStart:i]]
    while a field is open ([fieldStart >= 0]) and [None] otherwise. *)
Fixpoint fieldsLoop (f : Z → bool) (rs : list (Z * string))
    (field : option string) : list string :=
  match rs with
  | [] =>
      match field with
      | Some w => [w]
      | None => []
      end
  | (r, bytes) :: rs' =>
      if f r then
        match field with
        | Some w => w :: fieldsLoop f rs' None
        | None => fieldsLoop f rs' None
        end
      else
        match field with
        | Some w => fieldsLoop f rs' (Some (w +:+ bytes))
        | None => fieldsLoop f rs' (Some bytes)
        end
  end.

Definition FieldsFunc (s : string) (f : Z → bool) : list string :=
  fieldsLoop f (Utf8.runes s) None.

(** [strings.Fields]: [s] split around each run of white space. *)
Definition Fields (s : string) : list string :=
  FieldsFunc s Utf8.IsSpace.

(** [Fields] while a field is open or not: the loop on the rest of the
    input. *)
Definition fieldsFrom (s : string) (field : option string) : list string :=
  fieldsLoop Utf8.IsSpace (Utf8.runes s) field.

(** [s] cut around the first byte equal to [sep]. *)
Fixpoint cutByte (sep : ascii) (s : string) : option (string * string) :=
  match s with
  | EmptyString => None
  | String c s' =>
      if Ascii.eqb c sep then Some (EmptyString, s')
      else
        match cutByte sep s' with
        | Some (a, b) => Some (String c a, b)
        | None => None
        end
  end.

(** [strings.SplitN(s, sep, n)] for a separator of one byte and [n >= 0]:
    at most [n] substrings, the last one the unsplit remainder; [n = 0]
    gives nil. *)
Fixpoint SplitN (s : string) (sep : ascii) (n : nat) : list string :=
  match n with
  | O => []
  | S n' =>
      match n' with
      | O => [s]
      | S _ =>
          match cutByte sep s with
          | Some (a, b) => a :: SplitN b sep n'
          | None => [s]
          end
      end
  end.

End Strings.

(** ** net: addresses *)

Module Net.

(** An [IP] is a slice of bytes; [nil] is the empty list. *)
Definition IP : Type := list Z.

Definition IPv4len : nat := 4.
Definition IPv6len : nat := 16.

Local Open Scope Z_scope.

Definition v4InV6Prefix : list Z := [0; 0; 0; 0; 0; 0; 0; 0; 0; 0; 0xff; 0xff].

(** [net.IPv4(a, b, c, d)]: the 16-byte form of an IPv4 address. *)
Definition IPv4 (a b c d : Z) : IP := v4InV6Prefix ++ [a; b; c; d].

Definition IPv6loopback : IP := [0; 0; 0; 0; 0; 0; 0; 0; 0; 0; 0; 0; 0; 0; 0; 1].

Definition bytesEqual (x y : list Z) : bool := bool_decide (x = y).

Definition isZeros (p : list Z) : bool := forallb (Z.eqb 0) p.

(** [ip.To4()]: the 4-byte form of an IPv4 address, [nil] otherwise. *)
Definition To4 (ip : IP) : IP :=
  if (length ip =? IPv4len)%nat then ip
  else if (length ip =? IPv6len)%nat && isZeros (take 10 ip)
          && (nth 10 ip 0 =? 0xff) && (nth 11 ip 0 =? 0xff)
       then take 4 (drop 12 ip)
       else [].

(** [ip.Equal(x)]: an IPv4 address and the same address in IPv6 form are
    equal. *)
Definition Equal (ip x : IP) : bool :=
  if (length ip =? length x)%nat then bytesEqual ip x
  else if (length ip =? IPv4len)%nat && (length x =? IPv6len)%nat then
    bytesEqual (take 12 x) v4InV6Prefix && bytesEqual ip (drop 12 x)
  else if (length ip =? IPv6len)%nat && (length x =? IPv4len)%nat then
    bytesEqual (take 12 ip) v4InV6Prefix && bytesEqual (drop 12 ip) x
  else false.

(** [ip.IsLoopback()] *)
Definition IsLoopback (ip : IP) : bool :=
  match To4 ip with
  | b0 :: _ => b0 =? 127
  | [] => Equal ip IPv6loopback
  end.

(** An address is a loopback address for [IsLoopback] when it is an IPv4
    address in 127.0.0.0/8, in 4-byte form or in the 16-byte form
    [::ffff:127.b.c.d], or the IPv6 address [::1]. *)
Definition loopbackIP (ip : IP) : Prop :=
  (∃ b c d, ip = [127; b; c; d] ∨ ip = IPv4 127 b c d) ∨ ip = IPv6loopback.

(** An octet written in decimal, without leading zeros, and an IPv4
    address in dotted decimal form. *)
Definition digitChar (d : nat) : ascii := ascii_of_nat (48 + d).

Definition decimal (n : nat) : string :=
  if (n <? 10)%nat then String (digitChar n) EmptyString
  else if (n <? 100)%nat then
    String (digitChar (n / 10)) (String (digitChar (n mod 10)) EmptyString)
  else
    String (digitChar (n / 100))
      (String (digitChar (n / 10 mod 10)) (String (digitChar (n mod 10)) EmptyString)).

Definition dottedQuad (a b c d : nat) : string :=
  decimal a +:+ String "." (decimal b +:+ String "." (decimal c +:+ String "." (decimal d))).

(** [k] zeros: padding in front of a hexadecimal group. *)
Fixpoint zeros (k : nat) : string :=
  match k with
  | O => EmptyString
  | S k' => String "0" (zeros k')
  end.

Definition isDigit (c : ascii) : bool :=
  (byteOf "0" <=? byteOf c) && (byteOf c <=? byteOf "9").

Definition isEmpty (s : string) : bool := (String.length s =? 0)%nat.

(** [IndexByteString(s, c)]: index of the first [c] in [s], [-1] if there
    is none. *)
Fixpoint byteIndexFrom (s : string) (c : ascii) (i : Z) : Z :=
  match s with
  | EmptyString => -1
  | String d s' => if Ascii.eqb d c then i else byteIndexFrom s' c (i + 1)
  end.

Definition byteIndex (s : string) (c : ascii) : Z := byteIndexFrom s c 0.

(** *** net/netip: the parser behind [net.ParseIP]

    [net.ParseIP] parses with [netip.ParseAddr] and refuses an address
    with a zone.  The parser is strict: an octet with a leading zero and a
    group of more than four hexadecimal digits are errors.

    A [netip.Addr] is an IPv4 address of four bytes, or an IPv6 address
    of sixteen bytes with its zone. *)
Inductive Addr : Type :=
| Addr4 (fields : list Z)
| Addr6 (ip : list Z) (zone : string).

(** [ip.Zone()] and [ip.As16()]: an IPv4 address is returned in its
    IPv4-mapped form. *)
Definition Zone (ip : Addr) : string :=
  match ip with
  | Addr4 _ => EmptyString
  | Addr6 _ zone => zone
  end.

Definition As16 (ip : Addr) : list Z :=
  match ip with
  | Addr4 fields => v4InV6Prefix ++ fields
  | Addr6 ip _ => ip
  end.

(** The loop of [parseIPv4Fields] from index [i] on: [prev] is [s[i-1]]
    (read only where [i] is not 0), [val] and [digLen] are the value and
    the number of digits of the current octet, [pos] is its index.  The
    result is what the loop leaves in [val], [pos] and [fields], or [None]
    where it returns an error. *)
Fixpoint parseIPv4FieldsLoop (s : string) (i : nat) (prev : ascii) (val : Z)
    (pos digLen : nat) (fields : list Z) : option (Z * nat * list Z) :=
  match s with
  | EmptyString => Some (val, pos, fields)
  | String c s' =>
      if isDigit c then
        if (digLen =? 1)%nat && (val =? 0) then
          None (* IPv4 field has octet with leading zero *)
        else
          let val := val * 10 + (byteOf c - byteOf "0") in
          if val >? 255 then None (* IPv4 field has value >255 *)
          else parseIPv4FieldsLoop s' (S i) c val pos (S digLen) fields
      else if Ascii.eqb c "." then
        (* .1.2.3, 1.2.3. and 1..2.3 *)
        if (i =? 0)%nat || isEmpty s' || Ascii.eqb prev "." then
          None (* IPv4 field must have at least one digit *)
        else if (pos =? 3)%nat then None (* IPv4 address too long *)
        else
          parseIPv4FieldsLoop s' (S i) c 0 (S pos) 0 (<[pos := val mod 256]> fields)
      else None (* unexpected character *)
  end.

(** [parseIPv4Fields]: the four octets of an IPv4 address in dotted
    decimal form. *)
Definition parseIPv4Fields (s : string) : option (list Z) :=
  match parseIPv4FieldsLoop s 0 "000"%char 0 0 0 [0; 0; 0; 0] with
  | Some (val, pos, fields) =>
      if (pos <? 3)%nat then None (* IPv4 address too short *)
      else Some (<[3%nat := val mod 256]> fields)
  | None => None
  end.

(** [parseIPv4(s)] *)
Definition parseIPv4 (s : string) : option Addr :=
  match parseIPv4Fields s with
  | Some fields => Some (Addr4 fields)
  | None => None
  end.

Definition hexDigit (c : ascii) : option Z :=
  let b := byteOf c in
  if (byteOf "0" <=? b) && (b <=? byteOf "9") then Some (b - byteOf "0")
  else if (byteOf "a" <=? b) && (b <=? byteOf "f") then Some (b - byteOf "a" + 10)
  else if (byteOf "A" <=? b) && (b <=? byteOf "F") then Some (b - byteOf "A" + 10)
  else None.

Definition uint32 (x : Z) : Z := x mod 2 ^ 32.

(** The hex number at the head of the loop of [parseIPv6]: the value
    [acc] and the number [off] of digits read, or [None] where a group
    has more than four digits or overflows. *)
Fixpoint hexGroupLoop (s : string) (off : nat) (acc : Z) : option (Z * nat) :=
  match s with
  | EmptyString => Some (acc, off)
  | String c s' =>
      match hexDigit c with
      | None => Some (acc, off) (* break *)
      | Some d =>
          let acc := uint32 (Z.shiftl acc 4 + d) in
          if (3 <? off)%nat then None (* each group must have 4 or less digits *)
          else if acc >? 0xFFFF then None (* IPv6 field has value >=2^16 *)
          else hexGroupLoop s' (S off) acc
      end
  end.

(** The state of the loop of [parseIPv6]: the rest of the input, the
    address being filled, the index [i] into it and the position of the
    ellipsis ([-1] when there is none). *)
Record v6state : Type := V6 {
  v6rest : string;
  v6ip : list Z;
  v6i : nat;
  v6ellipsis : Z
}.

(** One turn of the loop: [None] where the parser returns an error, else
    the state and whether the loop goes on ([true]) or was left by
    [break]. *)
Definition parseIPv6Step (st : v6state) : option (v6state * bool) :=
  let s := v6rest st in
  let ip := v6ip st in
  let i := v6i st in
  let ellipsis := v6ellipsis st in
  match hexGroupLoop s 0 0 with
  | None => None
  | Some (acc, off) =>
      if (off =? 0)%nat then
        None (* each colon-separated field must have at least one digit *)
      else if (off <? String.length s)%nat
              && bool_decide (String.get off s = Some "."%char) then
        (* followed by a dot: might be in trailing IPv4 *)
        if (ellipsis <? 0) && negb (i =? 12)%nat then None (* not the right place *)
        else if (16 <? i + 4)%nat then None (* not enough room *)
        else
          match parseIPv4Fields s with
          | None => None
          | Some fields =>
              let ip := <[i := nth 0 fields 0]> ip in
              let ip := <[S i := nth 1 fields 0]> ip in
              let ip := <[S (S i) := nth 2 fields 0]> ip in
              let ip := <[S (S (S i)) := nth 3 fields 0]> ip in
              Some (V6 EmptyString ip (i + 4) ellipsis, false)
          end
      else
        (* save this 16-bit chunk *)
        let ip := <[i := (Z.shiftr acc 8) mod 256]> ip in
        let ip := <[S i := acc mod 256]> ip in
        let i := (i + 2)%nat in
        (* stop at end of string *)
        let s := dropString off s in
        match s with
        | EmptyString => Some (V6 s ip i ellipsis, false)
        | String c0 s0 =>
            (* otherwise must be followed by colon and more *)
            if negb (Ascii.eqb c0 ":") then None
            else if (String.length s =? 1)%nat then None
            else
              match s0 with
              | String ":" s1 =>
                  (* an ellipsis *)
                  if ellipsis >=? 0 then None (* already have one *)
                  else
                    match s1 with
                    | EmptyString => Some (V6 s1 ip i (Z.of_nat i), false)
                    | _ => Some (V6 s1 ip i (Z.of_nat i), true)
                    end
              | _ => Some (V6 s0 ip i ellipsis, true)
              end
        end
  end.

(** [for i < 16 { ... }]: each turn advances [i], so [fuel] equal to
    [IPv6len] is never used up. *)
Fixpoint parseIPv6Loop (fuel : nat) (st : v6state) : option v6state :=
  match fuel with
  | O => Some st
  | S fuel' =>
      if (v6i st <? IPv6len)%nat then
        match parseIPv6Step st with
        | None => None
        | Some (st', true) => parseIPv6Loop fuel' st'
        | Some (st', false) => Some st'
        end
      else Some st
  end.

(** What follows the loop: the whole input must be used; a short address
    is completed by expanding the ellipsis, which stands for at least one
    group of zeros. *)
Definition parseIPv6Finish (st : v6state) : option (list Z) :=
  match v6rest st with
  | String _ _ => None (* trailing garbage after address *)
  | EmptyString =>
      let i := v6i st in
      let ip := v6ip st in
      if (i <? IPv6len)%nat then
        if v6ellipsis st <? 0 then None (* address string too short *)
        else
          let e := Z.to_nat (v6ellipsis st) in
          Some (take e ip ++ replicate (IPv6len - i) 0 ++ take (i - e) (drop e ip))
      else if v6ellipsis st >=? 0 then None
      else Some ip
  end.

(** The loop of [parseIPv6] and what follows it, on the address [s]
    without its zone and without a leading ellipsis. *)
Definition parseIPv6Groups (s : string) (ellipsis : Z) (zone : string) : option Addr :=
  match parseIPv6Loop IPv6len (V6 s (replicate IPv6len 0) 0 ellipsis) with
  | Some st =>
      match parseIPv6Finish st with
      | Some ip => Some (Addr6 ip zone)
      | None => None
      end
  | None => None
  end.

(** [parseIPv6(in)]: the zone is split off first; an empty zone is an
    error. *)
Definition parseIPv6 (in_ : string) : option Addr :=
  let i := byteIndex in_ "%" in
  let s := if i =? -1 then in_ else slice in_ 0 (Z.to_nat i) in
  let zone := if i =? -1 then EmptyString else dropString (Z.to_nat (i + 1)) in_ in
  if negb (i =? -1) && isEmpty zone then None
  else
    match s with
    | String ":" (String ":" EmptyString) =>
        (* only the ellipsis *)
        Some (Addr6 (replicate IPv6len 0) zone)
    | String ":" (String ":" s') => parseIPv6Groups s' 0 zone
    | _ => parseIPv6Groups s (-1) zone
    end.

(** [netip.ParseAddr(s)]: the first dot, colon or percent sign decides. *)
Fixpoint parseAddrScan (s whole : string) : option Addr :=
  match s with
  | EmptyString => None (* unable to parse IP *)
  | String c s' =>
      if Ascii.eqb c "." then parseIPv4 whole
      else if Ascii.eqb c ":" then parseIPv6 whole
      else if Ascii.eqb c "%" then None (* missing IPv6 address *)
      else parseAddrScan s' whole
  end.

Definition ParseAddr (s : string) : option Addr := parseAddrScan s s.

(** [parseIP(s)] of package net: an address with a zone is refused. *)
Definition parseIP (s : string) : option (list Z) :=
  match ParseAddr s with
  | Some ip => if negb (isEmpty (Zone ip)) then None else Some (As16 ip)
  | None => None
  end.

(** [net.ParseIP(s)]: the address in 16 bytes, [nil] if [s] is not the
    text of an IP address. *)
Definition ParseIP (s : string) : IP :=
  match parseIP s with
  | Some addr => addr
  | None => []
  end.

(** [last(s, b)]: index of the last [b] in [s], [-1] if there is none. *)
Fixpoint lastFrom (s : string) (b : ascii) (i : Z) (found : Z) : Z :=
  match s with
  | EmptyString => found
  | String d s' => lastFrom s' b (i + 1) (if Ascii.eqb d b then i else found)
  end.

Definition last (s : string) (b : ascii) : Z := lastFrom s b 0 (-1).

Definition lenZ (s : string) : Z := Z.of_nat (String.length s).

(** The result of [SplitHostPort]: [(host, port, err)], with [err] the
    text of the [AddrError] or [None] for [nil]. *)
Definition addrErr (why : string) : string * string * option string :=
  (EmptyString, EmptyString, Some why).

(** [net.SplitHostPort(hostport)] *)
Definition SplitHostPort (hostport : string) : string * string * option string :=
  let missingPort := "missing port in address" in
  let tooManyColons := "too many colons in address" in
  (* the port starts after the last colon *)
  let i := last hostport ":" in
  if i <? 0 then addrErr missingPort
  else
    let tail (host : string) (j k : Z) :=
      if byteIndex (dropString (Z.to_nat j) hostport) "[" >=? 0 then
        addrErr "unexpected '[' in address"
      else if byteIndex (dropString (Z.to_nat k) hostport) "]" >=? 0 then
        addrErr "unexpected ']' in address"
      else (host, dropString (Z.to_nat (i + 1)) hostport, None) in
    if bool_decide (String.get 0 hostport = Some "["%char) then
      (* expect the first ']' just before the last ':' *)
      let end_ := byteIndex hostport "]" in
      if end_ <? 0 then addrErr "missing ']' in address"
      else if end_ + 1 =? lenZ hostport then addrErr missingPort
      else if end_ + 1 =? i then
        tail (slice hostport 1 (Z.to_nat end_)) 1 (end_ + 1)
      else if bool_decide (String.get (Z.to_nat (end_ + 1)) hostport = Some ":"%char)
      then addrErr tooManyColons
      else addrErr missingPort
    else
      let host := slice hostport 0 (Z.to_nat i) in
      if byteIndex host ":" >=? 0 then addrErr tooManyColons
      else tail host 0 0.

(** The last digit of an octet written in decimal. *)
Definition lastDigit (n : nat) : ascii := digitChar (n mod 10).

(** What the parsers make of an octet in decimal, whatever follows it. *)
Definition octetRead (n : nat) : Prop :=
  (∀ r i prev pos fields,
     parseIPv4FieldsLoop (decimal n +:+ r) i prev 0 pos 0 fields
     = parseIPv4FieldsLoop r (String.length (decimal n) + i) (lastDigit n)
         (Z.of_nat n) pos (String.length (decimal n)) fields)
  ∧ (∀ r whole, parseAddrScan (decimal n +:+ String "." r) whole = parseIPv4 whole)
  ∧ (∃ c t, decimal n = String c t)
  ∧ isDigit (lastDigit n) = true
  ∧ noneOf ":%[]" (decimal n) = true
  ∧ (∀ r, String.eqb (decimal n +:+ r) "localhost" = false).

End Net.

(** ** crypto/x509: certificate pools *)

Module X509.

(** A parsed certificate, identified by its raw contents. *)
Definition Certificate : Type := string.

(** A pool holds its certificates in the order they were added. *)
Definition CertPool : Type := list Certificate.

Definition NewCertPool : CertPool := [].

Definition contains (s : CertPool) (cert : Certificate) : bool :=
  bool_decide (cert ∈ s).

(** [s.AddCert(cert)]: a certificate already in the pool is not added
    twice. *)
Definition AddCert (s : CertPool) (cert : Certificate) : CertPool :=
  if contains s cert then s else s ++ [cert].

Section Parser.

(** The certificates that PEM decoding and X.509 parsing find in a piece
    of PEM data, in order: blocks that are not certificates or do not
    parse are passed over, so malformed data gives the empty list. *)
Variable certificatesOfPEM : string → list Certificate.

(** [s.AppendCertsFromPEM(pemCerts)]: adds every certificate found and
    reports whether there was one. *)
Definition AppendCertsFromPEM (s : CertPool) (pemCerts : string) : CertPool * bool :=
  (foldl AddCert s (certificatesOfPEM pemCerts),
   negb (bool_decide (certificatesOfPEM pemCerts = []))).

End Parser.

End X509.

(** ** crypto/tls: the fields of [tls.Config] that the package sets *)

Module TLS.

Record Config : Type := mkConfig {
  CipherSuites : list Z;
  MinVersion : Z;
  InsecureSkipVerify : bool;
  RootCAs : option X509.CertPool
}.

(** [tls.Config{}]: no restriction on cipher suites or version, the
    server is verified, the host's root CA set is used. *)
Definition zeroConfig : Config := mkConfig [] 0 false None.

Definition setRootCAs (c : Config) (pool : option X509.CertPool) : Config :=
  mkConfig (CipherSuites c) (MinVersion c) (InsecureSkipVerify c) pool.

Definition setInsecureSkipVerify (c : Config) (b : bool) : Config :=
  mkConfig (CipherSuites c) (MinVersion c) b (RootCAs c).

End TLS.

(** ** net/http: headers, transports and clients *)

Module Http.

(** [http.Header] is [map[string][]string]. *)
Abbreviation Header := (gmap string (list string)).

(** [h.Get(key)] for a key in canonical form: the first value associated
    with the key, the empty string if there is none. *)
Definition Get (h : Header) (key : string) : string :=
  match h !! key with
  | Some (v :: _) => v
  | _ => EmptyString
  end.

(** The function a transport dials with: the package's own, which asks
    the dial switch first. *)
Inductive Dialer : Type := GatedDial.

(** [http.Transport]: its TLS configuration ([None] for [nil]: the
    default configuration) and its [Dial] field ([None] for [nil]: the
    dialer of package [net]). *)
Record Transport : Type := mkTransport {
  TLSClientConfig : option TLS.Config;
  Dial : option Dialer
}.

(** [http.Client]: [ClientTransport] is [None] for a [nil] [Transport],
    which makes the client use [http.DefaultTransport]. *)
Record Client : Type := mkClient {
  ClientTransport : option Transport
}.

End Http.

(** ** package utils, http.go *)

Module Utils.

Import Http.

(** [type SSLHostnameVerification bool] *)
Definition SSLHostnameVerification : Type := bool.

(** [VerifySSLHostnames] ensures we verify the hostname on the certificate
    matches the host we are connecting and is signed. *)
Definition VerifySSLHostnames : SSLHostnameVerification := true.

(** [NoVerifySSLHostnames] informs us to skip verifying the hostname
    matches a valid certificate. *)
Definition NoVerifySSLHostnames : SSLHostnameVerification := false.

(** Modelled from the spec: [installHTTPDialShim] is called by [init] and
    is not among the sources.  Spec 4.4: the transport routes all dial
    attempts through the dial gate (4.3), "via a custom dial function
    injected into the transport". *)
Definition installHTTPDialShim (t : Transport) : Transport :=
  mkTransport (TLSClientConfig t) (Some GatedDial).

(** [http.DefaultTransport] once [init] has run: no TLS configuration of
    its own, and the dial shim installed.  ([init] also registers the
    [file] protocol on it, which plays no part here.) *)
Definition DefaultTransport : Transport :=
  installHTTPDialShim (mkTransport None None).

(** Modelled from the spec: [NewHttpTLSTransport] is not among the
    sources.  Spec 3 and 4.4: the client is bound to exactly one TLS
    configuration, and in every branch its transport routes all dial
    attempts through the dial gate. *)
Definition NewHttpTLSTransport (tlsConfig : TLS.Config) : Transport :=
  installHTTPDialShim (mkTransport (Some tlsConfig) None).

Section Factory.

(** The X.509 parser behind [AppendCertsFromPEM]. *)
Variable certificatesOfPEM : string → list X509.Certificate.

(** The restrictions of the secure baseline, "fixed at build time". *)
Variable baselineMinVersion : Z.
Variable baselineCipherSuites : list Z.

(** Modelled from the spec: [SecureTLSConfig] is not among the sources.
    Spec 4.1: [SecureBaseline()] returns a configuration with no trust
    pool set, [InsecureSkipVerify = false], and protocol/cipher
    restrictions fixed at build time. *)
Definition SecureTLSConfig : TLS.Config :=
  TLS.mkConfig baselineCipherSuites baselineMinVersion false None.

(** The loop [for _, cert := range certs] of [getHTTPClientWithCerts]:
    the result of [AppendCertsFromPEM] is not looked at. *)
Definition appendAll (pool : X509.CertPool) (certs : list string) : X509.CertPool :=
  foldl (fun pool cert => fst (X509.AppendCertsFromPEM certificatesOfPEM pool cert))
        pool certs.

(** The pool built from a list of PEM strings. *)
Definition poolOf (certs : list string) : X509.CertPool :=
  appendAll X509.NewCertPool certs.

(** [getHTTPClientWithCerts] returns a new http.Client that verifies the
    server's certificate chain and hostname depending on arguments and
    adds ca certificates to the client.  Returns nil ([None]) if no
    certificates provided. *)
Definition getHTTPClientWithCerts (verify : SSLHostnameVerification)
    (certs : list string) : option Client :=
  if (length certs =? 0)%nat then None
  else
    let pool := X509.NewCertPool in
    let pool := appendAll pool certs in
    let tlsConfig := SecureTLSConfig in
    let tlsConfig := TLS.setRootCAs tlsConfig (Some pool) in
    let tlsConfig :=
      if Bool.eqb verify NoVerifySSLHostnames
      then TLS.setInsecureSkipVerify tlsConfig true
      else tlsConfig in
    Some (mkClient (Some (NewHttpTLSTransport tlsConfig))).

(** [GetValidatingHTTPClient] returns a new http.Client that verifies the
    server's certificate chain and hostname: [&http.Client{}]. *)
Definition GetValidatingHTTPClient : option Client :=
  Some (mkClient None).

(** [GetNonValidatingHTTPClient] returns a new http.Client that does not
    verify the server's certificate chain and hostname. *)
Definition GetNonValidatingHTTPClient : option Client :=
  Some (mkClient (Some (NewHttpTLSTransport
                          (TLS.setInsecureSkipVerify TLS.zeroConfig true)))).

(** [GetHTTPClient] returns either a standard http client or non
    validating client depending on the value of verify. *)
Definition GetHTTPClient (verify : SSLHostnameVerification)
    (certs : list string) : option Client :=
  if (0 <? length certs)%nat then getHTTPClientWithCerts verify certs
  else if Bool.eqb verify VerifySSLHostnames then GetValidatingHTTPClient
  else GetNonValidatingHTTPClient.

End Factory.

(** The transport a client sends its requests through. *)
Definition transportOf (c : Client) : Transport :=
  match ClientTransport c with
  | Some t => t
  | None => DefaultTransport
  end.

(** The TLS configuration a client is bound to, [None] when it has none
    of its own. *)
Definition tlsConfigOf (c : Client) : option TLS.Config :=
  TLSClientConfig (transportOf c).

(** An error made by [fmt.Errorf]: its text. *)
Definition error : Type := string.

(** [BasicAuthHeader] creates a header that contains just the
    "Authorization" entry. *)
Definition BasicAuthHeader (username password : string) : Header :=
  let auth := username +:+ ":" +:+ password in
  let encoded := "Basic " +:+ Base64.EncodeToString auth in
  {[ "Authorization" := [encoded] ]}.

(** [ParseBasicAuthHeader] attempts to find an Authorization header in the
    supplied http.Header and if found parses it as a Basic header.  The
    result is [(userid, password, err)]. *)
Definition ParseBasicAuthHeader (h : Header) : string * string * option error :=
  let parts := Strings.Fields (Get h "Authorization") in
  if negb (length parts =? 2)%nat
     || negb (String.eqb (nth 0 parts EmptyString) "Basic")
  then (EmptyString, EmptyString, Some "invalid or missing HTTP auth header")
  else
    (* Challenge is a base64-encoded "tag:pass" string. *)
    match Base64.DecodeString (nth 1 parts EmptyString) with
    | None => (EmptyString, EmptyString, Some "invalid HTTP auth encoding")
    | Some challenge =>
        let tokens := Strings.SplitN challenge ":" 2 in
        if negb (length tokens =? 2)%nat
        then (EmptyString, EmptyString, Some "invalid HTTP auth contents")
        else (nth 0 tokens EmptyString, nth 1 tokens EmptyString, None)
    end.


(** A header that holds the one value [v] under "Authorization". *)
Definition authorization (v : string) : Header := {[ "Authorization" := [v] ]}.

(** The package's variables. [OutgoingAccessAllowed] determines whether
    connections other than localhost can be dialled. *)
Record Globals : Type := mkGlobals {
  OutgoingAccessAllowed : bool
}.

(** [var OutgoingAccessAllowed = true] *)
Definition initialGlobals : Globals := mkGlobals true.

Definition isLocalAddr (addr : string) : bool :=
  let '(host, _, err) := Net.SplitHostPort addr in
  match err with
  | Some _ => false
  | None => String.eqb host "localhost" || Net.IsLoopback (Net.ParseIP host)
  end.

(** What the dial function decides before any connection is made. *)
Inductive DialDecision : Type :=
| Proceed
| ConnectionRefused.

(** Modelled from the spec: the dial function that [installHTTPDialShim]
    installs is not among the sources.  Spec 4.3: [AllowDial(address)]
    fails with [ConnectionRefused] when [OutgoingAccessAllowed] is false
    and [IsLocal(address)] is false; otherwise proceeds. *)
Definition AllowDial (g : Globals) (address : string) : DialDecision :=
  if negb (OutgoingAccessAllowed g) && negb (isLocalAddr address)
  then ConnectionRefused
  else Proceed.

(** A dial through a transport: gated when the shim is installed. *)
Definition transportDial (g : Globals) (t : Transport) (address : string) : DialDecision :=
  match Dial t with
  | Some GatedDial => AllowDial g address
  | None => Proceed
  end.

End Utils.

(** ** strconv: integers *)

Module Strconv.

Local Open Scope Z_scope.

(** [ErrSyntax] and [ErrRange]. *)
Inductive ErrKind : Type :=
| ErrSyntax
| ErrRange.

(** [strconv.NumError]: the failing function, the input and the kind. *)
Record NumError : Type := mkNumError {
  Func : string;
  Num : string;
  Err : ErrKind
}.

Definition maxUint64 : Z := 2 ^ 64 - 1.

(** Arithmetic on [uint64] wraps around. *)
Definition uint64 (n : Z) : Z := n mod 2 ^ 64.

(** [int64(un)] of a [uint64]. *)
Definition int64 (n : Z) : Z := (n + 2 ^ 63) mod 2 ^ 64 - 2 ^ 63.

(** The value of a digit: [d - '0'], [d - 'a' + 10] or [d - 'A' + 10];
    [None] for a byte that is no digit in any base. *)
Definition digitVal (d : ascii) : option Z :=
  let b := byteOf d in
  if (byteOf "0" <=? b) && (b <=? byteOf "9") then Some (b - byteOf "0")
  else if (byteOf "a" <=? b) && (b <=? byteOf "z") then Some (b - byteOf "a" + 10)
  else if (byteOf "A" <=? b) && (b <=? byteOf "Z") then Some (b - byteOf "A" + 10)
  else None.

(** The loop of [ParseUint]: the number read so far is [n]; the result is
    the number returned with the kind of error, if any. *)
Fixpoint parseUintLoop (s : string) (base cutoff maxVal n : Z) : Z * option ErrKind :=
  match s with
  | EmptyString => (n, None)
  | String d s' =>
      match digitVal d with
      | None => (0, Some ErrSyntax)
      | Some v =>
          if v >=? base then (0, Some ErrSyntax)
          else if n >=? cutoff then
            (* n*base overflows *)
            (maxUint64, Some ErrRange)
          else
            let n := uint64 (n * base) in
            let n1 := uint64 (n + v) in
            if (n1 <? n) || (n1 >? maxVal) then
              (* n+v overflows *)
              (maxUint64, Some ErrRange)
            else parseUintLoop s' base cutoff maxVal n1
      end
  end.

(** [strconv.ParseUint(s, base, bitSize)] for a base from 2 to 36 and a
    size from 1 to 64. *)
Definition ParseUint (s : string) (base bitSize : Z) : Z * option NumError :=
  if (String.length s <? 1)%nat then (0, Some (mkNumError "ParseUint" s ErrSyntax))
  else
    (* cutoff is the smallest number such that cutoff*base > maxUint64 *)
    let cutoff := maxUint64 / base + 1 in
    let maxVal := uint64 (uint64 (Z.shiftl 1 bitSize) - 1) in
    match parseUintLoop s base cutoff maxVal 0 with
    | (n, None) => (n, None)
    | (n, Some e) => (n, Some (mkNumError "ParseUint" s e))
    end.

(** [strconv.ParseInt(s, base, bitSize)], same bases and sizes. *)
Definition ParseInt (s : string) (base bitSize : Z) : Z * option NumError :=
  match s with
  | EmptyString => (0, Some (mkNumError "ParseInt" s ErrSyntax))
  | String c0 rest =>
      (* pick off leading sign *)
      let s0 := s in
      let '(neg, s1) :=
        if Ascii.eqb c0 "+" then (false, rest)
        else if Ascii.eqb c0 "-" then (true, rest)
        else (false, s) in
      (* convert unsigned and check range *)
      let '(un, err) := ParseUint s1 base bitSize in
      let syntax :=
        match err with
        | Some e => match Err e with ErrRange => false | ErrSyntax => true end
        | None => false
        end in
      if syntax then (0, Some (mkNumError "ParseInt" s0 ErrSyntax))
      else
        let cutoff := uint64 (Z.shiftl 1 (bitSize - 1)) in
        if negb neg && (un >=? cutoff) then
          (int64 (cutoff - 1), Some (mkNumError "ParseInt" s0 ErrRange))
        else if neg && (un >? cutoff) then
          (int64 (- int64 cutoff), Some (mkNumError "ParseInt" s0 ErrRange))
        else
          let n := int64 un in
          (if neg then int64 (- n) else n, None)
  end.

(** The rest of [ParseInt(s0, 10, 32)] once the sign is picked off: [s1]
    is what follows the sign. *)
Definition afterSign (s0 : string) (neg : bool) (s1 : string) : Z * option NumError :=
  let '(un, err) := ParseUint s1 10 32 in
  let syntax :=
    match err with
    | Some e => match Err e with ErrRange => false | ErrSyntax => true end
    | None => false
    end in
  if syntax then (0, Some (mkNumError "ParseInt" s0 ErrSyntax))
  else
    let cutoff := uint64 (Z.shiftl 1 (32 - 1)) in
    if negb neg && (un >=? cutoff) then
      (int64 (cutoff - 1), Some (mkNumError "ParseInt" s0 ErrRange))
    else if neg && (un >? cutoff) then
      (int64 (- int64 cutoff), Some (mkNumError "ParseInt" s0 ErrRange))
    else
      let n := int64 un in
      (if neg then int64 (- n) else n, None).

(** The number a string of decimal digits stands for, read after [n]. *)
Fixpoint decimalValueFrom (s : string) (n : Z) : Z :=
  match s with
  | EmptyString => n
  | String d s' => decimalValueFrom s' (n * 10 + (byteOf d - byteOf "0"))
  end.

Definition decimalValue (s : string) : Z := decimalValueFrom s 0.

Definition isDecimalDigit (c : ascii) : bool :=
  (byteOf "0" <=? byteOf c) && (byteOf c <=? byteOf "9").

(** [s] is a decimal number [v] with an optional sign: digits, at least
    one, after nothing, [+] or [-]. *)
Definition signedDecimal (s : string) (v : Z) : Prop :=
  ∃ digits, digits ≠ EmptyString ∧ allChars isDecimalDigit digits = true
    ∧ ((s = digits ∧ v = decimalValue digits)
       ∨ (s = String "+" digits ∧ v = decimalValue digits)
       ∨ (s = String "-" digits ∧ v = - decimalValue digits)).

End Strconv.

(** ** package series: the series of the host *)

Module Series.

(** Errors: one that a function of the caller returned, one of
    [strconv], one made by [errors.Errorf] (the format and its
    arguments), and one wrapped by [errors.Annotate]. *)
Inductive error : Type :=
| ErrExternal (text : string)
| ErrNum (e : Strconv.NumError)
| Errorf (format : string) (args : list string)
| Annotate (cause : error) (message : string).

(** What [logger.Infof] is given. *)
Record LogEntry : Type := mkLogEntry {
  logFormat : string;
  logArg : error
}.

(** [kernelToMajor] takes a dotted version and returns just the Major
    portion.  [getKernelVersion] is a function of the caller. *)
Definition kernelToMajor (getKernelVersion : unit → string * option error)
    : Z * option error :=
  let '(fullVersion, err) := getKernelVersion tt in
  match err with
  | Some e => (0%Z, Some e)
  | None =>
      let parts := Strings.SplitN fullVersion "." 2 in
      let '(majorVersion, err) := Strconv.ParseInt (nth 0 parts EmptyString) 10 32 in
      match err with
      | Some e => (0%Z, Some (ErrNum e))
      | None => (majorVersion, None)
      end
  end.

(** [macOSXSeries] maps from the Darwin Kernel Major Version to the Mac
    OSX series. *)
Definition macOSXSeries : gmap Z string :=
  list_to_map
    [(15%Z, "elcapitan"); (14%Z, "yosemite"); (13%Z, "mavericks");
     (12%Z, "mountainlion"); (11%Z, "lion"); (10%Z, "snowleopard");
     (9%Z, "leopard"); (8%Z, "tiger"); (7%Z, "panther"); (6%Z, "jaguar");
     (5%Z, "puma")].

(** The pairs of [macOSXSeries], as written. *)
Definition seriesNamed (majorVersion : Z) (name : string) : Prop :=
  (majorVersion, name)
  ∈ [(15%Z, "elcapitan"); (14%Z, "yosemite"); (13%Z, "mavericks");
     (12%Z, "mountainlion"); (11%Z, "lion"); (10%Z, "snowleopard");
     (9%Z, "leopard"); (8%Z, "tiger"); (7%Z, "panther"); (6%Z, "jaguar");
     (5%Z, "puma")].

Definition macOSXSeriesFromMajorVersion (majorVersion : Z) : string * option error :=
  match macOSXSeries !! majorVersion with
  | None =>
      (* [series] is the zero value of the failed lookup *)
      let series := EmptyString in
      ("unknown", Some (Errorf "unknown series %q" [series]))
  | Some series => (series, None)
  end.

(** The result is [(series, err)] and what was logged. *)
Definition macOSXSeriesFromKernelVersion
    (getKernelVersion : unit → string * option error)
    : string * option error * list LogEntry :=
  let '(majorVersion, err) := kernelToMajor getKernelVersion in
  match err with
  | Some e =>
      ("unknown", Some e, [mkLogEntry "unable to determine OS version: %v" e])
  | None =>
      let '(series, err) := macOSXSeriesFromMajorVersion majorVersion in
      (series, err, [])
  end.

(** The package's variables: [seriesOnce] (whether its function has
    run), [series] and [seriesErr]; with them the number of calls of
    [readSeries] so far. *)
Record Globals : Type := mkGlobals {
  seriesOnceDone : bool;
  series : string;
  seriesErr : option error;
  readSeriesCalls : nat
}.

Definition initialGlobals : Globals := mkGlobals false EmptyString None 0.

Section Host.

(** [readSeries] is defined per platform, outside this file: what its
    call number [n] returns. *)
Variable readSeries : nat → string * option error.

(** [HostSeries] returns the series of the machine the current process
    is running on. *)
Definition HostSeries (g : Globals) : string * option error * Globals :=
  let g' :=
    if seriesOnceDone g then g
    else
      let '(s, err) := readSeries (readSeriesCalls g) in
      mkGlobals true s
        (match err with
         | Some e => Some (Annotate e "cannot determine host series")
         | None => seriesErr g
         end)
        (S (readSeriesCalls g)) in
  (series g', seriesErr g', g').

(** The outcome of a function that may panic. *)
Inductive outcome (A : Type) : Type :=
| Returns (a : A)
| Panics (e : error).

(** [MustHostSeries] calls [HostSeries] and panics if there is an
    error. *)
Definition MustHostSeries (g : Globals) : outcome string * Globals :=
  let '(series, err, g') := HostSeries g in
  match err with
  | Some e => (Panics string e, g')
  | None => (Returns string series, g')
  end.

(** [n] calls of [HostSeries] in a row: the results, oldest first, and
    the variables after them. *)
Fixpoint HostSeriesTimes (n : nat) (g : Globals)
    : list (string * option error) * Globals :=
  match n with
  | O => ([], g)
  | S n' =>
      let '(s, err, g') := HostSeries g in
      let '(rest, g'') := HostSeriesTimes n' g' in
      ((s, err) :: rest, g'')
  end.

(** What the first call of [HostSeries] returns: the series [readSeries]
    gave, and its error, annotated. *)
Definition firstResult : string * option error :=
  ((readSeries 0).1,
   match (readSeries 0).2 with
   | Some e => Some (Annotate e "cannot determine host series")
   | None => None
   end).

Definition afterFirst : Globals :=
  mkGlobals true firstResult.1 firstResult.2 1.

End Host.

End Series.

(** The characters an IP address is written with: the hexadecimal digits,
    the dot and the colon. *)
Definition addressChar (c : ascii) : bool :=
  match Net.hexDigit c with
  | Some _ => true
  | None => Ascii.eqb c "." || Ascii.eqb c ":"
  end.

(** * Properties *)

(** ** Bytes and slices *)

Lemma byteOf_range (c : ascii) : (0 <= byteOf c < 256)%Z.
Proof.
  unfold byteOf. pose proof (N_ascii_bounded c). lia.
Qed.

Lemma toByte_byteOf (c : ascii) : toByte (byteOf c) = c.
Proof.
  unfold toByte. rewrite Z.mod_small by apply byteOf_range.
  unfold byteOf. rewrite N2Z.id. apply ascii_N_embedding.
Qed.

Lemma app_empty_l (b : string) : EmptyString +:+ b = b.
Proof. reflexivity. Qed.

Lemma app_String (c : ascii) (a b : string) : String c a +:+ b = String c (a +:+ b).
Proof. reflexivity. Qed.

Ltac unfold_app := rewrite ?app_String, ?app_empty_l.

(** Comparisons of integers that [lia] decides. *)
Ltac zcompare :=
  first [ apply Z.ltb_ge; lia | apply Z.ltb_lt; lia
        | apply Z.eqb_neq; lia | apply Z.eqb_eq; lia
        | rewrite Z.gtb_ltb; apply Z.ltb_ge; lia ].

Lemma takeString_app (a b : string) : takeString (String.length a) (a +:+ b) = a.
Proof.
  induction a as [|c a IH]; unfold_app; simpl; [by destruct b | by f_equal].
Qed.

Lemma dropString_app_length (a b : string) :
  dropString (String.length a) (a +:+ b) = b.
Proof. induction a as [|c a IH]; unfold_app; simpl; done. Qed.

Lemma app_String_assoc (a b c : string) : (a +:+ b) +:+ c = a +:+ (b +:+ c).
Proof. induction a as [|x a IH]; unfold_app; [done | by f_equal]. Qed.

Lemma app_empty_r (a : string) : a +:+ EmptyString = a.
Proof. induction a as [|x a IH]; unfold_app; [done | by f_equal]. Qed.

Lemma length_app_String (a b : string) :
  String.length (a +:+ b) = (String.length a + String.length b)%nat.
Proof. induction a as [|x a IH]; unfold_app; simpl; [done | by f_equal]. Qed.

Lemma hasByte_app (c : ascii) (a b : string) :
  hasByte c (a +:+ b) = hasByte c a || hasByte c b.
Proof.
  induction a as [|d a IH]; unfold_app; simpl; [done|].
  rewrite IH. apply orb_assoc.
Qed.

Lemma hasByte_mid (c : ascii) (a b : string) : hasByte c (a +:+ String c b) = true.
Proof.
  rewrite hasByte_app. cbn [hasByte]. by rewrite Ascii.eqb_refl, orb_true_r.
Qed.

Lemma noneOf_hasByte (cs s : string) (c : ascii) :
  noneOf cs s = true → hasByte c cs = true → hasByte c s = false.
Proof.
  unfold noneOf. intros Hs Hc. induction s as [|d s IH]; simpl in *; [done|].
  apply andb_true_iff in Hs as [Hd Hs]. rewrite IH by exact Hs.
  destruct (Ascii.eqb d c) eqn:Heq; [|done].
  apply Ascii.eqb_eq in Heq as ->. by rewrite Hc in Hd.
Qed.

(** ** Base64: decoding undoes encoding *)

Module Base64Facts.

Import Base64.
Local Open Scope Z_scope.

Lemma sextets_checked :
  forallb (fun i => alphabetic (encodeAt i) && (decodeMap (encodeAt i) =? i)) sextets = true.
Proof. vm_compute. reflexivity. Qed.

Lemma sextet_ok (i : Z) :
  0 <= i < 64 → alphabetic (encodeAt i) = true ∧ decodeMap (encodeAt i) = i.
Proof.
  intros Hi. pose proof sextets_checked as H.
  rewrite forallb_forall in H.
  specialize (H i). rewrite andb_true_iff, Z.eqb_eq in H. apply H.
  unfold sextets. apply in_map_iff. exists (Z.to_nat i). split; [lia|].
  apply in_seq. lia.
Qed.

Lemma land_63 (x : Z) : Z.land x 0x3F = x mod 64.
Proof. change 0x3F with (Z.ones 6). rewrite Z.land_ones by lia. reflexivity. Qed.

Lemma lor_disjoint_add (x lo k : Z) :
  0 <= k → x mod 2 ^ k = 0 → 0 <= lo < 2 ^ k → Z.lor x lo = x + lo.
Proof.
  intros Hk Hx Hlo.
  assert (Hland : Z.land x lo = 0).
  { apply Z.bits_inj'. intros n Hn. rewrite Z.land_spec, Z.bits_0.
    destruct (Z.lt_ge_cases n k) as [Hlt|Hge].
    - rewrite <- (Z.mod_pow2_bits_low x k n Hlt), Hx, Z.bits_0. reflexivity.
    - rewrite <- (Z.mod_small lo (2 ^ k)) by lia.
      rewrite Z.mod_pow2_bits_high by lia. apply andb_false_r. }
  rewrite <- Z.lxor_lor by exact Hland.
  symmetry. apply Z.add_nocarry_lxor. exact Hland.
Qed.

(** The value of three bytes, as sums. *)
Lemma val3_sum (a b c : Z) :
  0 <= a < 256 → 0 <= b < 256 → 0 <= c < 256 →
  Z.lor (Z.lor (Z.shiftl a 16) (Z.shiftl b 8)) c = a * 65536 + b * 256 + c.
Proof.
  intros Ha Hb Hc. rewrite !Z.shiftl_mul_pow2 by lia.
  change (2 ^ 16) with 65536. change (2 ^ 8) with 256.
  rewrite (lor_disjoint_add (a * 65536) (b * 256) 16); [|lia| |].
  - rewrite (lor_disjoint_add _ c 8); [lia|lia| |].
    + change (2 ^ 8) with 256.
      replace (a * 65536 + b * 256) with ((a * 256 + b) * 256) by lia.
      apply Z.mod_mul. lia.
    + change (2 ^ 8) with 256. lia.
  - change (2 ^ 16) with 65536. apply Z.mod_mul. lia.
  - change (2 ^ 16) with 65536. lia.
Qed.

(** The value of four sextets, as sums. *)
Lemma quantumVal_sum (d0 d1 d2 d3 : Z) :
  0 <= d0 < 64 → 0 <= d1 < 64 → 0 <= d2 < 64 → 0 <= d3 < 64 →
  quantumVal d0 d1 d2 d3 = d0 * 262144 + d1 * 4096 + d2 * 64 + d3.
Proof.
  intros H0 H1 H2 H3. unfold quantumVal. rewrite !Z.shiftl_mul_pow2 by lia.
  change (2 ^ 18) with 262144. change (2 ^ 12) with 4096. change (2 ^ 6) with 64.
  rewrite (lor_disjoint_add (d0 * 262144) (d1 * 4096) 18); [|lia| |].
  - rewrite (lor_disjoint_add _ (d2 * 64) 12); [|lia| |].
    + rewrite (lor_disjoint_add _ d3 6); [lia|lia| |].
      * change (2 ^ 6) with 64.
        replace (d0 * 262144 + d1 * 4096 + d2 * 64)
          with ((d0 * 4096 + d1 * 64 + d2) * 64) by lia.
        apply Z.mod_mul. lia.
      * change (2 ^ 6) with 64. lia.
    + change (2 ^ 12) with 4096.
      replace (d0 * 262144 + d1 * 4096) with ((d0 * 64 + d1) * 4096) by lia.
      apply Z.mod_mul. lia.
    + change (2 ^ 12) with 4096. lia.
  - change (2 ^ 18) with 262144. apply Z.mod_mul. lia.
  - change (2 ^ 18) with 262144. lia.
Qed.

(** The sextets of a 24-bit value put together give the value back. *)
Lemma sextets_of_val (v : Z) :
  0 <= v < 16777216 →
  quantumVal (Z.land (Z.shiftr v 18) 0x3F) (Z.land (Z.shiftr v 12) 0x3F)
             (Z.land (Z.shiftr v 6) 0x3F) (Z.land v 0x3F) = v.
Proof.
  intros Hv. rewrite !land_63, !Z.shiftr_div_pow2 by lia.
  change (2 ^ 18) with 262144. change (2 ^ 12) with 4096. change (2 ^ 6) with 64.
  rewrite quantumVal_sum by (apply Z.mod_pos_bound; lia).
  Z.div_mod_to_equations. lia.
Qed.

Lemma sextet_range (x : Z) : 0 <= Z.land x 0x3F < 64.
Proof. rewrite land_63. apply Z.mod_pos_bound. lia. Qed.

Lemma toByte_mod (n : Z) (c : ascii) : n mod 256 = byteOf c → toByte n = c.
Proof.
  intros H. unfold toByte. rewrite H. unfold byteOf.
  rewrite N2Z.id. apply ascii_N_embedding.
Qed.

(** The three bytes of the value of three bytes. *)
Lemma bytes_of_val (a b c : ascii) (v : Z) :
  v = byteOf a * 65536 + byteOf b * 256 + byteOf c →
  toByte (Z.shiftr v 16) = a ∧ toByte (Z.shiftr v 8) = b ∧ toByte (Z.shiftr v 0) = c.
Proof.
  intros ->. pose proof (byteOf_range a). pose proof (byteOf_range b).
  pose proof (byteOf_range c).
  rewrite !Z.shiftr_div_pow2 by lia.
  change (2 ^ 16) with 65536. change (2 ^ 8) with 256. change (2 ^ 0) with 1.
  repeat split; apply toByte_mod; Z.div_mod_to_equations; lia.
Qed.

Lemma decodeMap_sextet (x : Z) :
  decodeMap (encodeAt (Z.land x 0x3F)) = Z.land x 0x3F
  ∧ (decodeMap (encodeAt (Z.land x 0x3F)) =? 0xFF) = false
  ∧ Ascii.eqb (encodeAt (Z.land x 0x3F)) padChar = false.
Proof.
  destruct (sextet_ok (Z.land x 0x3F) (sextet_range x)) as [Ha Hd].
  unfold alphabetic in Ha. rewrite !andb_true_iff, !negb_true_iff in Ha.
  destruct Ha as [[[[Hp _] _] _] _].
  rewrite Hd. repeat split; [|exact Hp].
  pose proof (sextet_range x). apply Z.eqb_neq. lia.
Qed.

(** A string of fewer than three bytes, or three bytes and a string for
    which the property holds: the recursion of the encoder. *)
Lemma string_ind3 (P : string → Prop) :
  P EmptyString →
  (∀ a, P (String a EmptyString)) →
  (∀ a b, P (String a (String b EmptyString))) →
  (∀ a b c rest, P rest → P (String a (String b (String c rest)))) →
  ∀ s, P s.
Proof.
  intros H0 H1 H2 H3.
  assert (Hall : ∀ n s, (String.length s < n)%nat → P s).
  { induction n as [|n IH]; intros s Hlen; [lia|].
    destruct s as [|a [|b [|c rest]]]; auto.
    apply H3, IH. simpl in Hlen. lia. }
  intros s. apply (Hall (S (String.length s))). lia.
Qed.

(** One full quantum: the four characters of three bytes decode to
    them. *)
Lemma decodeQuanta_full (a b c : ascii) (enc : string) :
  let val := Z.lor (Z.lor (Z.shiftl (byteOf a) 16) (Z.shiftl (byteOf b) 8)) (byteOf c) in
  decodeQuanta
    (String (encodeAt (Z.land (Z.shiftr val 18) 0x3F))
       (String (encodeAt (Z.land (Z.shiftr val 12) 0x3F))
          (String (encodeAt (Z.land (Z.shiftr val 6) 0x3F))
             (String (encodeAt (Z.land val 0x3F)) enc))))
  = match decodeQuanta enc with
    | Some out => Some (String a (String b (String c out)))
    | None => None
    end.
Proof.
  intros val.
  pose proof (byteOf_range a). pose proof (byteOf_range b).
  pose proof (byteOf_range c).
  assert (Hval : val = byteOf a * 65536 + byteOf b * 256 + byteOf c)
    by (apply val3_sum; assumption).
  cbn [decodeQuanta].
  destruct (decodeMap_sextet (Z.shiftr val 18)) as (-> & -> & ->).
  destruct (decodeMap_sextet (Z.shiftr val 12)) as (-> & -> & ->).
  destruct (decodeMap_sextet (Z.shiftr val 6)) as (-> & -> & ->).
  destruct (decodeMap_sextet val) as (-> & -> & ->).
  cbn [orb]. rewrite sextets_of_val by lia.
  destruct (bytes_of_val a b c val Hval) as (-> & -> & ->).
  reflexivity.
Qed.

(** [DecodeString] undoes [EncodeToString] on the encoder's output. *)
Lemma decodeQuanta_EncodeToString (s : string) :
  decodeQuanta (EncodeToString s) = Some s.
Proof.
  induction s as [|a|a b|a b c rest IH] using string_ind3.
  - reflexivity.
  - (* one byte: two characters and "==" *)
    cbn [EncodeToString]. set (val := Z.shiftl (byteOf a) 16).
    pose proof (byteOf_range a).
    assert (Hval : val = byteOf a * 65536 + byteOf "000" * 256 + byteOf "000").
    { unfold val. rewrite Z.shiftl_mul_pow2 by lia. change (byteOf "000") with 0. lia. }
    cbn [decodeQuanta].
    destruct (decodeMap_sextet (Z.shiftr val 18)) as (-> & -> & ->).
    destruct (decodeMap_sextet (Z.shiftr val 12)) as (-> & -> & ->).
    change (Ascii.eqb padChar padChar) with true. cbn [orb].
    assert (Hq : quantumVal (Z.land (Z.shiftr val 18) 0x3F)
                            (Z.land (Z.shiftr val 12) 0x3F) 0 0 = val).
    { rewrite <- (sextets_of_val val) at 3 by (change (byteOf "000") with 0 in Hval; lia).
      f_equal; rewrite land_63, ?Z.shiftr_div_pow2 by lia;
        change (byteOf "000") with 0 in Hval; change (2 ^ 6) with 64;
        Z.div_mod_to_equations; lia. }
    rewrite Hq. destruct (bytes_of_val a "000" "000" val Hval) as (-> & _ & _).
    reflexivity.
  - (* two bytes: three characters and "=" *)
    cbn [EncodeToString].
    set (val := Z.lor (Z.shiftl (byteOf a) 16) (Z.shiftl (byteOf b) 8)).
    pose proof (byteOf_range a). pose proof (byteOf_range b).
    assert (Hval : val = byteOf a * 65536 + byteOf b * 256 + byteOf "000").
    { unfold val. rewrite <- (Z.lor_0_r (Z.lor _ _)).
      change (byteOf "000") with 0. apply val3_sum; lia. }
    cbn [decodeQuanta].
    destruct (decodeMap_sextet (Z.shiftr val 18)) as (-> & -> & ->).
    destruct (decodeMap_sextet (Z.shiftr val 12)) as (-> & -> & ->).
    destruct (decodeMap_sextet (Z.shiftr val 6)) as (-> & -> & ->).
    change (Ascii.eqb padChar padChar) with true. cbn [orb].
    assert (Hq : quantumVal (Z.land (Z.shiftr val 18) 0x3F)
                            (Z.land (Z.shiftr val 12) 0x3F)
                            (Z.land (Z.shiftr val 6) 0x3F) 0 = val).
    { rewrite <- (sextets_of_val val) at 4 by (change (byteOf "000") with 0 in Hval; lia).
      f_equal. rewrite land_63. change (byteOf "000") with 0 in Hval.
      Z.div_mod_to_equations; lia. }
    rewrite Hq. destruct (bytes_of_val a b "000" val Hval) as (-> & -> & _).
    reflexivity.
  - cbn [EncodeToString]. rewrite decodeQuanta_full, IH. reflexivity.
Qed.

(** The test vectors of RFC 4648. *)
Lemma EncodeToString_examples :
  EncodeToString EmptyString = EmptyString
  ∧ EncodeToString "f" = "Zg=="
  ∧ EncodeToString "fo" = "Zm8="
  ∧ EncodeToString "foo" = "Zm9v"
  ∧ EncodeToString "foob" = "Zm9vYg=="
  ∧ EncodeToString "fooba" = "Zm9vYmE="
  ∧ EncodeToString "foobar" = "Zm9vYmFy".
Proof. repeat split. Qed.

(** Input the decoder refuses, and newlines it skips. *)
Lemma DecodeString_examples :
  Forall (λ s, DecodeString s = None)
    ["Zg"; "Zg="; "Z==="; "=Zg="; "Zg==Zg=="; "Zm9v!"; "Zm 9v"; "Zg=x"]
  ∧ DecodeString ("Zm9v" +:+ String "013" (String "010" "Yg==")) = Some "foob"
  ∧ DecodeString "Zh==" = Some "f".
Proof. repeat split; repeat constructor. Qed.

(** The encoder writes characters of the alphabet and padding only:
    ASCII, no white space, so no newline either. *)
Lemma encodeAt_plain (x : Z) : plainChar (encodeAt (Z.land x 0x3F)) = true.
Proof.
  destruct (sextet_ok (Z.land x 0x3F) (sextet_range x)) as [Ha _].
  unfold alphabetic in Ha. rewrite !andb_true_iff in Ha.
  destruct Ha as [[[[_ _] Hascii] Hspace] _].
  unfold plainChar. by rewrite Hascii, Hspace.
Qed.

Lemma EncodeToString_plain (s : string) :
  allChars plainChar (EncodeToString s) = true.
Proof.
  induction s as [|a|a b|a b c rest IH] using string_ind3;
    cbn [EncodeToString allChars]; rewrite ?encodeAt_plain, ?IH; reflexivity.
Qed.

Lemma plainChar_not_newline (c : ascii) : plainChar c = true → isNewline c = false.
Proof.
  unfold plainChar, isNewline. rewrite andb_true_iff, negb_true_iff.
  intros [_ Hs]. apply orb_false_iff.
  split; apply Ascii.eqb_neq; intros ->; vm_compute in Hs; discriminate.
Qed.

Lemma skipNewlines_plain (s : string) :
  allChars plainChar s = true → skipNewlines s = s.
Proof.
  induction s as [|c s IH]; simpl; [done|].
  rewrite andb_true_iff. intros [Hc Hs].
  rewrite (plainChar_not_newline c Hc), IH by exact Hs. reflexivity.
Qed.

Lemma EncodeToString_nonempty (s : string) :
  s ≠ EmptyString → EncodeToString s ≠ EmptyString.
Proof. destruct s as [|a [|b [|c rest]]]; simpl; congruence. Qed.

(** [DecodeString(EncodeToString(s))] is [s], with no error. *)
Lemma DecodeString_EncodeToString (s : string) :
  DecodeString (EncodeToString s) = Some s.
Proof.
  unfold DecodeString. rewrite skipNewlines_plain by apply EncodeToString_plain.
  apply decodeQuanta_EncodeToString.
Qed.

End Base64Facts.

(** ** strings.Fields and strings.SplitN *)

Module StringsFacts.

Import Strings.

(** A rune of a non-empty string is at least one byte wide and no wider
    than the string. *)
Lemma DecodeRuneInString_width (c : ascii) (s : string) :
  (1 ≤ (Utf8.DecodeRuneInString (String c s)).2 ≤ S (String.length s))%nat.
Proof.
  unfold Utf8.DecodeRuneInString.
  repeat (case_match; simpl; try lia).
Qed.

Lemma takeString_dropString (n : nat) (s : string) :
  takeString n s +:+ dropString n s = s.
Proof.
  revert s. induction n as [|n IH]; intros [|c s]; simpl; unfold_app; try done.
  by rewrite IH.
Qed.

Lemma length_dropString (n : nat) (s : string) :
  String.length (dropString n s) = (String.length s - n)%nat.
Proof. revert s. induction n as [|n IH]; intros [|c s]; simpl; auto. Qed.

(** The fuel of [runes] is enough: the runes visited span all of [s]. *)
Lemma runesFrom_cover (fuel : nat) (s : string) :
  (String.length s ≤ fuel)%nat → Utf8.runeBytes (Utf8.runesFrom fuel s) = s.
Proof.
  revert s. induction fuel as [|fuel IH]; intros [|c s] Hlen; simpl in Hlen;
    try done; [lia|].
  cbn [Utf8.runesFrom].
  pose proof (DecodeRuneInString_width c s) as Hw.
  destruct (Utf8.DecodeRuneInString (String c s)) as [r w]. cbn [snd] in Hw.
  cbn [Utf8.runeBytes foldr snd]. fold (Utf8.runeBytes (Utf8.runesFrom fuel (dropString w (String c s)))).
  rewrite IH; [apply takeString_dropString|].
  rewrite length_dropString. simpl. lia.
Qed.

Lemma runes_cover (s : string) : Utf8.runeBytes (Utf8.runes s) = s.
Proof. by apply runesFrom_cover. Qed.

(** An ASCII character is a rune of its own. *)
Lemma runes_ascii (c : ascii) (s : string) :
  (byteOf c <? 0x80)%Z = true →
  Utf8.runes (String c s) = (byteOf c, String c EmptyString) :: Utf8.runes s.
Proof.
  intros Hc. unfold Utf8.runes. cbn [String.length Utf8.runesFrom].
  unfold Utf8.DecodeRuneInString. rewrite Hc. reflexivity.
Qed.

Lemma Fields_fieldsFrom (s : string) : Fields s = fieldsFrom s None.
Proof. reflexivity. Qed.

Lemma fieldsFrom_blank (c : ascii) (s : string) (field : option string) :
  blankChar c = true →
  fieldsFrom (String c s) field
  = match field with
    | Some w => w :: fieldsFrom s None
    | None => fieldsFrom s None
    end.
Proof.
  unfold blankChar. rewrite andb_true_iff. intros [Hascii Hspace].
  unfold fieldsFrom. rewrite runes_ascii by exact Hascii.
  cbn [fieldsLoop]. rewrite Hspace. reflexivity.
Qed.

Lemma fieldsFrom_plain (c : ascii) (s : string) (field : option string) :
  plainChar c = true →
  fieldsFrom (String c s) field
  = fieldsFrom s (Some (match field with
                        | Some w => w +:+ String c EmptyString
                        | None => String c EmptyString
                        end)).
Proof.
  unfold plainChar. rewrite andb_true_iff, negb_true_iff. intros [Hascii Hspace].
  unfold fieldsFrom. rewrite runes_ascii by exact Hascii.
  cbn [fieldsLoop]. rewrite Hspace. by destruct field.
Qed.

(** Leading white space opens no field. *)
Lemma fieldsFrom_blanks (w s : string) :
  allChars blankChar w = true → fieldsFrom (w +:+ s) None = fieldsFrom s None.
Proof.
  induction w as [|c w IH]; unfold_app; simpl; [done|].
  rewrite andb_true_iff. intros [Hc Hw].
  rewrite fieldsFrom_blank by exact Hc. auto.
Qed.

(** Plain characters extend the open field. *)
Lemma fieldsFrom_word_open (tok s acc : string) :
  allChars plainChar tok = true →
  fieldsFrom (tok +:+ s) (Some acc) = fieldsFrom s (Some (acc +:+ tok)).
Proof.
  revert acc. induction tok as [|c tok IH]; intros acc; unfold_app; simpl.
  - intros _. by rewrite app_empty_r.
  - rewrite andb_true_iff. intros [Hc Htok].
    rewrite fieldsFrom_plain by exact Hc. rewrite IH by exact Htok.
    by rewrite app_String_assoc.
Qed.

Lemma fieldsFrom_word (c : ascii) (tok s : string) :
  allChars plainChar (String c tok) = true →
  fieldsFrom (String c tok +:+ s) None = fieldsFrom s (Some (String c tok)).
Proof.
  simpl. rewrite andb_true_iff. intros [Hc Htok]. unfold_app.
  rewrite fieldsFrom_plain by exact Hc.
  by rewrite fieldsFrom_word_open.
Qed.

(** White space after a field closes it. *)
Lemma fieldsFrom_close (c : ascii) (w s acc : string) :
  allChars blankChar (String c w) = true →
  fieldsFrom (String c w +:+ s) (Some acc) = acc :: fieldsFrom s None.
Proof.
  simpl. rewrite andb_true_iff. intros [Hc Hw]. unfold_app.
  rewrite fieldsFrom_blank by exact Hc. by rewrite fieldsFrom_blanks.
Qed.

(** Two words, white space between them (at least one character) and
    around them (any amount): [Fields] returns the two words. *)
Lemma Fields_two_words (pre a sep b post : string) :
  allChars blankChar pre = true →
  allChars plainChar a = true → a ≠ EmptyString →
  allChars blankChar sep = true → sep ≠ EmptyString →
  allChars plainChar b = true → b ≠ EmptyString →
  allChars blankChar post = true →
  Fields (pre +:+ a +:+ sep +:+ b +:+ post) = [a; b].
Proof.
  intros Hpre Ha Hane Hsep Hsepne Hb Hbne Hpost.
  rewrite Fields_fieldsFrom, fieldsFrom_blanks by exact Hpre.
  destruct a as [|ca a]; [done|]. destruct sep as [|cs sep]; [done|].
  destruct b as [|cb b]; [done|].
  rewrite fieldsFrom_word by exact Ha.
  rewrite fieldsFrom_close by exact Hsep.
  rewrite fieldsFrom_word by exact Hb.
  destruct post as [|cp post]; [reflexivity|].
  rewrite <- (app_empty_r (String cp post)).
  rewrite fieldsFrom_close by exact Hpost. reflexivity.
Qed.

(** [Fields] on plain and on Unicode white space: U+00A0 and U+2003
    written in UTF-8 separate fields, a lone byte [0xA0] does not. *)
Lemma Fields_examples :
  Fields "  Basic   abc  " = ["Basic"; "abc"]
  ∧ Fields "1 2 3 4" = ["1"; "2"; "3"; "4"]
  ∧ Fields (" " +:+ String "009" "abc" +:+ String "010" "def") = ["abc"; "def"]
  ∧ Fields ("a" +:+ String "194" (String "160" "b")) = ["a"; "b"]
  ∧ Fields ("a" +:+ String "226" (String "128" (String "131" "b"))) = ["a"; "b"]
  ∧ Fields ("a" +:+ String "160" "b") = ["a" +:+ String "160" "b"]
  ∧ Fields "   " = [].
Proof. repeat split. Qed.

(** [cutByte] finds the first separator. *)
Lemma cutByte_first (sep : ascii) (a b : string) :
  hasByte sep a = false → cutByte sep (a +:+ String sep b) = Some (a, b).
Proof.
  induction a as [|c a IH]; unfold_app; simpl.
  - intros _. by rewrite Ascii.eqb_refl.
  - intros [Hc Ha]%orb_false_iff. rewrite Hc, IH by exact Ha. reflexivity.
Qed.

Lemma cutByte_inv (sep : ascii) (s a b : string) :
  cutByte sep s = Some (a, b) →
  s = a +:+ String sep b ∧ hasByte sep a = false.
Proof.
  revert a b. induction s as [|c s IH]; intros a b; simpl; [done|].
  destruct (Ascii.eqb c sep) eqn:Hc.
  - apply Ascii.eqb_eq in Hc as ->. by intros [= <- <-].
  - destruct (cutByte sep s) as [[a' b']|]; [|done].
    intros [= <- <-]. destruct (IH a' b' eq_refl) as [-> Ha'].
    simpl. by rewrite Hc, Ha'.
Qed.

Lemma cutByte_Some (sep : ascii) (s a b : string) :
  cutByte sep s = Some (a, b) ↔
  s = a +:+ String sep b ∧ hasByte sep a = false.
Proof.
  split; [apply cutByte_inv|]. intros [-> Ha]. by apply cutByte_first.
Qed.

Lemma cutByte_None (sep : ascii) (s : string) :
  cutByte sep s = None ↔ hasByte sep s = false.
Proof.
  induction s as [|c s IH]; simpl; [done|].
  destruct (Ascii.eqb c sep); simpl; [done|].
  destruct (cutByte sep s) as [[a b]|]; [|tauto].
  split; [done|]. intros H. apply IH in H. discriminate.
Qed.

(** [SplitN(s, sep, 2)] is the two sides of the first separator, or [s]
    alone when it holds none. *)
Lemma SplitN_2 (s : string) (sep : ascii) :
  SplitN s sep 2 = match cutByte sep s with
                   | Some (a, b) => [a; b]
                   | None => [s]
                   end.
Proof. simpl. by destruct (cutByte sep s) as [[a b]|]. Qed.

End StringsFacts.

(** ** The Basic-Auth codec *)

Module CodecFacts.

Import Http Utils Strings StringsFacts Base64 Base64Facts.

Lemma Get_authorization (v : string) : Get (authorization v) "Authorization" = v.
Proof. unfold Get, authorization. by rewrite lookup_singleton_eq. Qed.

Lemma BasicAuthHeader_authorization (u p : string) :
  BasicAuthHeader u p
  = authorization ("Basic " +:+ EncodeToString (u +:+ ":" +:+ p)).
Proof. reflexivity. Qed.

(** The parser as a function of the fields of the header's value. *)
Lemma ParseBasicAuthHeader_fields (h : Header) :
  ParseBasicAuthHeader h
  = match Fields (Get h "Authorization") with
    | [scheme; tok] =>
        if String.eqb scheme "Basic" then
          match DecodeString tok with
          | None => (EmptyString, EmptyString, Some "invalid HTTP auth encoding")
          | Some challenge =>
              match cutByte ":" challenge with
              | Some (u, p) => (u, p, None)
              | None => (EmptyString, EmptyString, Some "invalid HTTP auth contents")
              end
          end
        else (EmptyString, EmptyString, Some "invalid or missing HTTP auth header")
    | _ => (EmptyString, EmptyString, Some "invalid or missing HTTP auth header")
    end.
Proof.
  unfold ParseBasicAuthHeader.
  destruct (Fields (Get h "Authorization")) as [|scheme [|tok [|x l]]]; try reflexivity.
  cbn [length Nat.eqb negb orb nth].
  destruct (String.eqb scheme "Basic"); [|reflexivity]. cbn [negb].
  destruct (DecodeString tok) as [challenge|]; [|reflexivity].
  rewrite SplitN_2. by destruct (cutByte ":" challenge) as [[u p]|].
Qed.

(** The payload of a header written by [BasicAuthHeader] is one plain
    word. *)
Lemma Fields_Basic (pre sep post tok : string) :
  allChars blankChar pre = true →
  allChars blankChar sep = true → sep ≠ EmptyString →
  allChars blankChar post = true →
  allChars plainChar tok = true → tok ≠ EmptyString →
  Fields (pre +:+ "Basic" +:+ sep +:+ tok +:+ post) = ["Basic"; tok].
Proof.
  intros Hpre Hsep Hsepne Hpost Htok Htokne.
  apply Fields_two_words; done.
Qed.

Lemma payload_nonempty (u p : string) : u +:+ ":" +:+ p ≠ EmptyString.
Proof. destruct u; discriminate. Qed.

(** Any white space around the scheme and the token: the parser returns
    what was encoded. *)
Lemma ParseBasicAuthHeader_spaced (pre sep post u p : string) :
  allChars blankChar pre = true →
  allChars blankChar sep = true → sep ≠ EmptyString →
  allChars blankChar post = true →
  hasByte ":" u = false →
  ParseBasicAuthHeader
    (authorization (pre +:+ "Basic" +:+ sep
                        +:+ EncodeToString (u +:+ ":" +:+ p) +:+ post))
  = (u, p, None).
Proof.
  intros Hpre Hsep Hsepne Hpost Hu.
  rewrite ParseBasicAuthHeader_fields, Get_authorization.
  rewrite Fields_Basic;
    [|done|done|done|done|apply EncodeToString_plain
     |apply EncodeToString_nonempty, payload_nonempty].
  change (String.eqb "Basic" "Basic") with true. cbv iota.
  rewrite DecodeString_EncodeToString.
  change (u +:+ ":" +:+ p) with (u +:+ String ":" p).
  by rewrite cutByte_first.
Qed.

(** C4.  Round-trip law of the Basic-Auth codec: for every username [u]
    that holds no colon and every password [p] (colons allowed),
    [ParseBasicAuthHeader] applied to the header made by
    [BasicAuthHeader u p] succeeds and returns exactly [(u, p)]. *)
Theorem BasicAuth_round_trip (u p : string) :
  hasByte ":" u = false →
  ParseBasicAuthHeader (BasicAuthHeader u p) = (u, p, None).
Proof.
  intros Hu. rewrite BasicAuthHeader_authorization.
  pose proof (ParseBasicAuthHeader_spaced EmptyString " " EmptyString u p) as H.
  rewrite app_empty_r in H. apply H; done.
Qed.

(** The spec's example: username "alice", password "pa:ss". *)
Lemma BasicAuth_round_trip_alice :
  hasByte ":" "alice" = false
  ∧ ParseBasicAuthHeader (BasicAuthHeader "alice" "pa:ss") = ("alice", "pa:ss", None).
Proof.
  split; [reflexivity|]. apply (BasicAuth_round_trip "alice" "pa:ss"). reflexivity.
Defined.





(** Against C6 as stated: a header value with two spaces between the
    scheme and the token differs from the wire form, and is accepted. *)
Lemma extra_whitespace_accepted :
  "Basic  YTpi" ≠ "Basic " +:+ EncodeToString "a:b"
  ∧ ParseBasicAuthHeader (authorization "Basic  YTpi") = ("a", "b", None).
Proof. split; [discriminate | reflexivity]. Qed.

(** C6, amended.  Only the scheme is matched byte for byte: a header
    value whose first token is not literally "Basic" (wrong case
    included) is rejected.  White space is not part of the format that is
    enforced: any non-empty run of white space between the scheme and the
    token, and any white space before or after them, is accepted and the
    header is read as the one [BasicAuthHeader] writes. *)
Theorem ParseBasicAuthHeader_wire_format :
  (∀ scheme tok,
     allChars plainChar scheme = true → scheme ≠ EmptyString →
     allChars plainChar tok = true → tok ≠ EmptyString →
     scheme ≠ "Basic" →
     ParseBasicAuthHeader (authorization (scheme +:+ " " +:+ tok))
     = (EmptyString, EmptyString, Some "invalid or missing HTTP auth header"))
  ∧ (∀ pre sep post u p,
       allChars blankChar pre = true →
       allChars blankChar sep = true → sep ≠ EmptyString →
       allChars blankChar post = true →
       ParseBasicAuthHeader
         (authorization (pre +:+ "Basic" +:+ sep
                             +:+ EncodeToString (u +:+ ":" +:+ p) +:+ post))
       = ParseBasicAuthHeader (BasicAuthHeader u p)).
Proof.
  split.
  - intros scheme tok Hs Hsne Ht Htne Hneq.
    rewrite ParseBasicAuthHeader_fields, Get_authorization.
    pose proof (Fields_two_words EmptyString scheme " " tok EmptyString) as HF.
    rewrite app_empty_r in HF. rewrite app_empty_l in HF.
    rewrite HF by done.
    apply String.eqb_neq in Hneq. by rewrite Hneq.
  - intros pre sep post u p Hpre Hsep Hsepne Hpost.
    rewrite BasicAuthHeader_authorization, !ParseBasicAuthHeader_fields.
    rewrite !Get_authorization.
    pose proof (Fields_Basic EmptyString " " EmptyString
                  (EncodeToString (u +:+ ":" +:+ p))) as HF.
    rewrite app_empty_r in HF. rewrite app_empty_l in HF.
    change ("Basic" +:+ " " +:+ ?x) with ("Basic " +:+ x) in HF.
    rewrite HF, Fields_Basic;
      first [ done | apply EncodeToString_plain
            | apply EncodeToString_nonempty, payload_nonempty ].
Qed.

(** "basic" and "BASIC" are rejected; tabs and spaces around the token
    are not. *)
Lemma ParseBasicAuthHeader_wire_format_examples :
  ParseBasicAuthHeader (authorization "basic YTpi")
  = (EmptyString, EmptyString, Some "invalid or missing HTTP auth header")
  ∧ ParseBasicAuthHeader (authorization "BASIC YTpi")
    = (EmptyString, EmptyString, Some "invalid or missing HTTP auth header")
  ∧ ParseBasicAuthHeader
      (authorization (" " +:+ "Basic" +:+ String "009" "  "
                          +:+ EncodeToString ("a" +:+ ":" +:+ "b") +:+ " "))
    = ("a", "b", None).
Proof.
  split; [|split].
  - apply (proj1 ParseBasicAuthHeader_wire_format "basic" "YTpi");
      first [ reflexivity | discriminate ].
  - apply (proj1 ParseBasicAuthHeader_wire_format "BASIC" "YTpi");
      first [ reflexivity | discriminate ].
  - rewrite (proj2 ParseBasicAuthHeader_wire_format " " (String "009" "  ") " " "a" "b");
      first [ reflexivity | discriminate ].
Defined.

End CodecFacts.

(** ** Certificate pools *)

Module X509Facts.

Import X509.

Lemma elem_of_AddCert (s : CertPool) (cert x : Certificate) :
  x ∈ AddCert s cert ↔ x ∈ s ∨ x = cert.
Proof.
  unfold AddCert, contains. case_bool_decide as Hin.
  - split; [tauto|]. intros [H| ->]; done.
  - rewrite elem_of_app, list_elem_of_singleton. done.
Qed.

Lemma elem_of_foldl_AddCert (l : list Certificate) (s : CertPool) (x : Certificate) :
  x ∈ foldl AddCert s l ↔ x ∈ s ∨ x ∈ l.
Proof.
  revert s. induction l as [|c l IH]; intros s; simpl.
  - rewrite elem_of_nil. tauto.
  - rewrite IH, elem_of_AddCert, elem_of_cons. tauto.
Qed.

Section Parser.

Variable certificatesOfPEM : string → list Certificate.

(** Data in which no certificate is found leaves the pool as it is. *)
Lemma AppendCertsFromPEM_malformed (s : CertPool) (pem : string) :
  certificatesOfPEM pem = [] →
  AppendCertsFromPEM certificatesOfPEM s pem = (s, false).
Proof. unfold AppendCertsFromPEM. intros ->. reflexivity. Qed.

Lemma elem_of_AppendCertsFromPEM (s : CertPool) (pem : string) (x : Certificate) :
  x ∈ (AppendCertsFromPEM certificatesOfPEM s pem).1 ↔ x ∈ s ∨ x ∈ certificatesOfPEM pem.
Proof. apply elem_of_foldl_AddCert. Qed.

End Parser.

End X509Facts.

(** ** The client factory *)

Module FactoryFacts.

Import Http Utils X509Facts.

Section Factory.

Variable certificatesOfPEM : string → list X509.Certificate.
Variable baselineMinVersion : Z.
Variable baselineCipherSuites : list Z.

Local Abbreviation GetHTTPClient :=
  (GetHTTPClient certificatesOfPEM baselineMinVersion baselineCipherSuites).
Local Abbreviation getHTTPClientWithCerts :=
  (getHTTPClientWithCerts certificatesOfPEM baselineMinVersion baselineCipherSuites).
Local Abbreviation SecureTLSConfig :=
  (SecureTLSConfig baselineMinVersion baselineCipherSuites).
Local Abbreviation appendAll := (appendAll certificatesOfPEM).
Local Abbreviation poolOf := (poolOf certificatesOfPEM).

Lemma elem_of_appendAll (certs : list string) (pool : X509.CertPool)
    (x : X509.Certificate) :
  x ∈ appendAll pool certs ↔
  x ∈ pool ∨ ∃ pem, pem ∈ certs ∧ x ∈ certificatesOfPEM pem.
Proof.
  revert pool. induction certs as [|pem certs IH]; intros pool.
  - simpl. split; [tauto|]. intros [H|(pem & Hpem & _)]; [done|].
    by apply elem_of_nil in Hpem.
  - unfold Utils.appendAll. cbn [foldl]. fold (appendAll
      (X509.AppendCertsFromPEM certificatesOfPEM pool pem).1 certs).
    rewrite IH, elem_of_AppendCertsFromPEM. split.
    + intros [[H|H]|(pem' & Hin & H)]; [tauto| |].
      * right. exists pem. split; [apply elem_of_cons; tauto | done].
      * right. exists pem'. split; [apply elem_of_cons; tauto | done].
    + intros [H|(pem' & Hin & H)]; [tauto|].
      apply elem_of_cons in Hin as [->|Hin]; [tauto|]. right. eauto.
Qed.

(** Malformed entries are passed over. *)
Lemma appendAll_malformed (certs : list string) (pool : X509.CertPool) :
  (∀ pem, pem ∈ certs → certificatesOfPEM pem = []) →
  appendAll pool certs = pool.
Proof.
  revert pool. induction certs as [|pem certs IH]; intros pool Hall; [done|].
  unfold Utils.appendAll. cbn [foldl].
  rewrite AppendCertsFromPEM_malformed by (apply Hall, elem_of_cons; tauto).
  apply IH. intros pem' Hin. apply Hall, elem_of_cons. tauto.
Qed.

Lemma appendAll_skip (pem : string) (certs : list string) (pool : X509.CertPool) :
  certificatesOfPEM pem = [] →
  appendAll pool (pem :: certs) = appendAll pool certs.
Proof.
  intros Hpem. unfold Utils.appendAll. cbn [foldl].
  by rewrite AppendCertsFromPEM_malformed.
Qed.

(** The three branches of [GetHTTPClient], by what they return. *)
Lemma GetHTTPClient_certs (verify : SSLHostnameVerification) (cert : string)
    (certs : list string) :
  GetHTTPClient verify (cert :: certs)
  = Some (mkClient (Some (NewHttpTLSTransport
       (TLS.mkConfig baselineCipherSuites baselineMinVersion (negb verify)
          (Some (poolOf (cert :: certs))))))).
Proof. by destruct verify. Qed.

Lemma GetHTTPClient_verify_nil :
  GetHTTPClient VerifySSLHostnames [] = Some (mkClient None).
Proof. reflexivity. Qed.

Lemma GetHTTPClient_noverify_nil :
  GetHTTPClient NoVerifySSLHostnames []
  = Some (mkClient (Some (NewHttpTLSTransport (TLS.mkConfig [] 0%Z true None)))).
Proof. reflexivity. Qed.

(** C1.  For every call of the factory: the configuration of the client
    skips verification exactly when the mode is [NoVerifySSLHostnames],
    whether or not a pool is attached; with that mode the client does
    have a configuration and [InsecureSkipVerify] is true in it; and with
    a non-empty list of certificates the pool built from them is attached
    and [InsecureSkipVerify] is true only for [NoVerifySSLHostnames], so
    that [GetHTTPClient(VerifySSLHostnames, certs)] has
    [InsecureSkipVerify = false] with the pool attached. *)
Theorem skip_verify_only_when_asked (verify : SSLHostnameVerification)
    (certs : list string) :
  ∃ c, GetHTTPClient verify certs = Some c
    ∧ (∀ cfg, tlsConfigOf c = Some cfg →
         (TLS.InsecureSkipVerify cfg = true ↔ verify = NoVerifySSLHostnames))
    ∧ (verify = NoVerifySSLHostnames →
         ∃ cfg, tlsConfigOf c = Some cfg ∧ TLS.InsecureSkipVerify cfg = true
           ∧ (TLS.RootCAs cfg = None ↔ certs = []))
    ∧ (certs ≠ [] →
         ∃ cfg, tlsConfigOf c = Some cfg
           ∧ TLS.RootCAs cfg = Some (poolOf certs)
           ∧ TLS.InsecureSkipVerify cfg = negb verify).
Proof.
  destruct certs as [|cert certs].
  - destruct verify.
    + eexists. split; [apply GetHTTPClient_verify_nil|].
      split; [intros cfg [=]|]. split; [intros [=] | done].
    + eexists. split; [apply GetHTTPClient_noverify_nil|].
      split; [intros cfg [= <-]; done|].
      split; [|done]. intros _. eexists. split; [reflexivity|]. done.
  - rewrite GetHTTPClient_certs. eexists. split; [reflexivity|].
    split; [intros cfg [= <-]; destruct verify; done|].
    split.
    + intros ->. eexists. split; [reflexivity|]. done.
    + intros _. eexists. split; [reflexivity|]. done.
Qed.

(** C2.  [GetHTTPClient(NoVerifySSLHostnames, certs)] with a non-empty
    list returns a client whose TLS configuration has
    [InsecureSkipVerify = true] and, at the same time, [RootCAs] set to
    the pool built from [certs]: every certificate found in an entry of
    [certs] is in it. *)
Theorem noverify_keeps_pool (cert : string) (certs : list string) :
  ∃ c cfg, GetHTTPClient NoVerifySSLHostnames (cert :: certs) = Some c
    ∧ tlsConfigOf c = Some cfg
    ∧ TLS.InsecureSkipVerify cfg = true
    ∧ TLS.RootCAs cfg = Some (poolOf (cert :: certs))
    ∧ (∀ pem x, pem ∈ cert :: certs → x ∈ certificatesOfPEM pem →
         x ∈ poolOf (cert :: certs)).
Proof.
  rewrite GetHTTPClient_certs. do 2 eexists.
  split; [reflexivity|]. split; [reflexivity|]. split; [reflexivity|].
  split; [reflexivity|]. intros pem x Hpem Hx.
  apply elem_of_appendAll. right. eauto.
Qed.

(** C8.  Construction never fails: for every mode and every list of
    certificates [GetHTTPClient] returns a client.  Entries in which no
    certificate is found are passed over when the pool is built, and when
    no entry holds a certificate the client is returned all the same,
    with the empty pool attached. *)
Theorem construction_never_fails (verify : SSLHostnameVerification)
    (certs : list string) :
  (∃ c, GetHTTPClient verify certs = Some c)
  ∧ (∀ pem rest pool, certificatesOfPEM pem = [] →
       appendAll pool (pem :: rest) = appendAll pool rest)
  ∧ (certs ≠ [] → (∀ pem, pem ∈ certs → certificatesOfPEM pem = []) →
       ∃ c cfg, GetHTTPClient verify certs = Some c
         ∧ tlsConfigOf c = Some cfg
         ∧ TLS.RootCAs cfg = Some []).
Proof.
  split; [|split].
  - destruct certs as [|cert certs]; [destruct verify|]; eexists.
    + apply GetHTTPClient_verify_nil.
    + apply GetHTTPClient_noverify_nil.
    + apply GetHTTPClient_certs.
  - intros pem rest pool Hpem. by apply appendAll_skip.
  - intros Hne Hall. destruct certs as [|cert certs]; [done|].
    rewrite GetHTTPClient_certs. do 2 eexists.
    split; [reflexivity|]. split; [reflexivity|].
    cbn [TLS.RootCAs]. f_equal. unfold poolOf. by apply appendAll_malformed.
Qed.

(** C10.  [GetHTTPClient] never returns nil: [getHTTPClientWithCerts]
    returns nil exactly for the empty list, and [GetHTTPClient] hands a
    list to it only when the list is not empty; for the empty list the
    result is that of [GetValidatingHTTPClient] or
    [GetNonValidatingHTTPClient]. *)
Theorem GetHTTPClient_not_nil (verify : SSLHostnameVerification)
    (certs : list string) :
  GetHTTPClient verify certs ≠ None
  ∧ (getHTTPClientWithCerts verify certs = None ↔ certs = [])
  ∧ (certs = [] →
       GetHTTPClient verify certs
       = if verify then GetValidatingHTTPClient else GetNonValidatingHTTPClient)
  ∧ (certs ≠ [] →
       GetHTTPClient verify certs = getHTTPClientWithCerts verify certs).
Proof.
  destruct certs as [|cert certs].
  - split; [by destruct verify|]. split; [done|].
    split; [by destruct verify | done].
  - split; [by rewrite GetHTTPClient_certs|].
    split; [by destruct verify|]. split; [done|]. intros _. reflexivity.
Qed.

End Factory.

(** [GetHTTPClient(VerifySSLHostnames, [certA])]: verification is not
    skipped and the pool is attached. *)
Lemma skip_verify_only_when_asked_example :
  ∃ c cfg, GetHTTPClient (λ pem, [pem]) 0x0303%Z [0xc02f%Z]
             VerifySSLHostnames ["certA"] = Some c
    ∧ tlsConfigOf c = Some cfg
    ∧ TLS.InsecureSkipVerify cfg = false
    ∧ TLS.RootCAs cfg = Some ["certA"].
Proof.
  destruct (skip_verify_only_when_asked (λ pem, [pem]) 0x0303%Z [0xc02f%Z]
              VerifySSLHostnames ["certA"])
    as (c & Hc & _ & _ & Hpool).
  destruct Hpool as (cfg & Hcfg & Hroot & Hskip); [discriminate|].
  exists c, cfg. split; [exact Hc|]. split; [exact Hcfg|].
  split; [exact Hskip | exact Hroot].
Defined.

(** [GetHTTPClient(NoVerifySSLHostnames, [certA])]: both at once. *)
Lemma noverify_keeps_pool_example :
  ∃ c cfg, GetHTTPClient (λ pem, [pem]) 0x0303%Z [0xc02f%Z]
             NoVerifySSLHostnames ["certA"] = Some c
    ∧ tlsConfigOf c = Some cfg
    ∧ TLS.InsecureSkipVerify cfg = true
    ∧ TLS.RootCAs cfg = Some ["certA"].
Proof.
  destruct (noverify_keeps_pool (λ pem, [pem]) 0x0303%Z [0xc02f%Z] "certA" [])
    as (c & cfg & Hc & Hcfg & Hskip & Hroot & _).
  exists c, cfg. split; [exact Hc|]. split; [exact Hcfg|].
  split; [exact Hskip | exact Hroot].
Defined.

(** A list whose entries are all malformed: a client with the empty pool. *)
Lemma construction_never_fails_example :
  ∃ c cfg, GetHTTPClient (λ _, []) 0x0303%Z [0xc02f%Z]
             VerifySSLHostnames ["not a certificate"; "nor this"] = Some c
    ∧ tlsConfigOf c = Some cfg
    ∧ TLS.RootCAs cfg = Some [].
Proof.
  apply (construction_never_fails (λ _, []) 0x0303%Z [0xc02f%Z]
           VerifySSLHostnames ["not a certificate"; "nor this"]);
    [discriminate | reflexivity].
Defined.

(** Against C9 as stated: with a baseline that asks for TLS 1.2 and one
    cipher suite, the client for [NoVerifySSLHostnames] and no
    certificates has [InsecureSkipVerify = true] and neither of the
    baseline's restrictions. *)
Lemma non_validating_client_without_baseline :
  ∃ c cfg, GetHTTPClient (λ pem, [pem]) 0x0303%Z [0xc02f%Z] NoVerifySSLHostnames [] = Some c
    ∧ tlsConfigOf c = Some cfg
    ∧ TLS.InsecureSkipVerify cfg = true
    ∧ TLS.MinVersion cfg ≠ TLS.MinVersion (SecureTLSConfig 0x0303%Z [0xc02f%Z])
    ∧ TLS.CipherSuites cfg ≠ TLS.CipherSuites (SecureTLSConfig 0x0303%Z [0xc02f%Z]).
Proof. do 2 eexists. repeat split; done. Qed.

Section Baseline.

Variable certificatesOfPEM : string → list X509.Certificate.
Variable baselineMinVersion : Z.
Variable baselineCipherSuites : list Z.

Local Abbreviation GetHTTPClient :=
  (GetHTTPClient certificatesOfPEM baselineMinVersion baselineCipherSuites).
Local Abbreviation SecureTLSConfig :=
  (SecureTLSConfig baselineMinVersion baselineCipherSuites).

(** C9, amended.  Only the client with certificates starts from the
    secure baseline: its configuration is [SecureTLSConfig] with the pool
    as [RootCAs] and [InsecureSkipVerify] set for
    [NoVerifySSLHostnames].  The client for [NoVerifySSLHostnames] and no
    certificates has a configuration of its own in which only
    [InsecureSkipVerify] is set: no minimum version and no cipher
    suites.  The client for [VerifySSLHostnames] and no certificates has
    no transport and no TLS configuration of its own. *)
Theorem baseline_only_with_certs :
  (∀ verify cert certs,
     ∃ c cfg, GetHTTPClient verify (cert :: certs) = Some c
       ∧ tlsConfigOf c = Some cfg
       ∧ cfg = TLS.mkConfig (TLS.CipherSuites SecureTLSConfig)
                            (TLS.MinVersion SecureTLSConfig)
                            (negb verify)
                            (Some (poolOf certificatesOfPEM (cert :: certs))))
  ∧ (∃ c cfg, GetHTTPClient NoVerifySSLHostnames [] = Some c
       ∧ tlsConfigOf c = Some cfg
       ∧ cfg = TLS.mkConfig [] 0%Z true None)
  ∧ (∃ c, GetHTTPClient VerifySSLHostnames [] = Some c
       ∧ ClientTransport c = None
       ∧ tlsConfigOf c = None).
Proof.
  split; [|split].
  - intros verify cert certs. rewrite GetHTTPClient_certs.
    do 2 eexists. split; [reflexivity|]. split; reflexivity.
  - rewrite GetHTTPClient_noverify_nil. do 2 eexists.
    split; [reflexivity|]. split; reflexivity.
  - rewrite GetHTTPClient_verify_nil. eexists.
    split; [reflexivity|]. split; reflexivity.
Qed.

End Baseline.

End FactoryFacts.

(** ** Addresses *)

Module NetFacts.

Import Net.
Local Open Scope Z_scope.

Lemma IsLoopback_loopbackIP (ip : IP) : IsLoopback ip = true ↔ loopbackIP ip.
Proof.
  unfold loopbackIP. split.
  - unfold IsLoopback, To4, Equal.
    destruct ip as [|a0 [|a1 [|a2 [|a3 [|a4 ip]]]]]; try discriminate.
    + cbn. intros ->%Z.eqb_eq. left. exists a1, a2, a3. by left.
    + destruct ip as [|a5 [|a6 [|a7 [|a8 [|a9 [|a10 [|a11 [|a12 [|a13 [|a14 [|a15 [|a16 ip]]]]]]]]]]]];
        try discriminate.
      * cbn [length Nat.eqb IPv4len IPv6len andb].
        destruct (isZeros _ && _ && _) eqn:Hv4.
        -- cbn [take drop]. intros ->%Z.eqb_eq.
           rewrite !andb_true_iff in Hv4. destruct Hv4 as [[Hz H10] H11].
           unfold isZeros in Hz. cbn [take forallb nth] in Hz, H10, H11.
           rewrite !andb_true_iff, !Z.eqb_eq in Hz.
           apply Z.eqb_eq in H10, H11.
           destruct Hz as (<- & <- & <- & <- & <- & <- & <- & <- & <- & <- & _).
           subst. left. exists a13, a14, a15. by right.
        -- unfold bytesEqual. intros ->%bool_decide_eq_true. by right.
  - intros [(b & c & d & [-> | ->]) | ->]; reflexivity.
Qed.

(** A turn of the loop of [parseIPv6] after which the loop goes on has
    advanced the index by two. *)
Lemma parseIPv6Step_advances (st st' : v6state) :
  parseIPv6Step st = Some (st', true) → v6i st' = (v6i st + 2)%nat.
Proof.
  unfold parseIPv6Step.
  repeat (case_match; try discriminate); intros [= <-]; reflexivity.
Qed.

(** The fuel of [parseIPv6Loop] is enough: with [IPv6len] turns (indeed
    with half as many) the loop ends by itself, and more fuel changes
    nothing. *)
Lemma parseIPv6Loop_fuel (f k : nat) (st : v6state) :
  (IPv6len ≤ v6i st + 2 * f)%nat →
  parseIPv6Loop (f + k) st = parseIPv6Loop f st.
Proof.
  revert st. induction f as [|f IH]; intros st Hf.
  - assert ((v6i st <? IPv6len)%nat = false) as Hi by (apply Nat.ltb_ge; lia).
    destruct k; simpl; [done | by rewrite Hi].
  - cbn [Nat.add parseIPv6Loop].
    destruct (v6i st <? IPv6len)%nat; [|done].
    destruct (parseIPv6Step st) as [[st' [|]]|] eqn:Hstep; [|done..].
    apply IH. rewrite (parseIPv6Step_advances st st' Hstep). lia.
Qed.

Lemma parseIPv6Loop_enough (k : nat) (s : string) (ellipsis : Z) :
  parseIPv6Loop (IPv6len + k) (V6 s (replicate IPv6len 0) 0 ellipsis)
  = parseIPv6Loop IPv6len (V6 s (replicate IPv6len 0) 0 ellipsis).
Proof. apply parseIPv6Loop_fuel. simpl. unfold IPv6len. lia. Qed.

(** The model of [ParseIP] on addresses that the library reads and on
    addresses that it refuses: an octet with a leading zero and a group
    of more than four digits among them. *)
Lemma ParseIP_examples :
  ParseIP "127.0.1.2" = IPv4 127 0 1 2
  ∧ ParseIP "127.0.0.1" = IPv4 127 0 0 1
  ∧ ParseIP "::ffff:127.1.2.3" = IPv4 127 1 2 3
  ∧ ParseIP "::ffff:7f01:0203" = IPv4 127 1 2 3
  ∧ ParseIP "0:0:0:0:0000:ffff:127.1.2.3" = IPv4 127 1 2 3
  ∧ ParseIP "0:0:0:0::ffff:127.1.2.3" = IPv4 127 1 2 3
  ∧ ParseIP "2001:4860:0:2001::68"
    = [0x20; 0x01; 0x48; 0x60; 0; 0; 0x20; 0x01; 0; 0; 0; 0; 0; 0; 0x00; 0x68]
  ∧ ParseIP "2001:4860:0000:2001:0000:0000:0000:0068"
    = [0x20; 0x01; 0x48; 0x60; 0; 0; 0x20; 0x01; 0; 0; 0; 0; 0; 0; 0x00; 0x68]
  ∧ ParseIP "::1" = IPv6loopback
  ∧ ParseIP "0:0:0:0:0:0:0:1" = IPv6loopback
  ∧ ParseIP "::" = replicate 16 0
  ∧ Forall (λ s, ParseIP s = [])
      ["-0.0.0.0"; "0.-1.0.0"; "0.0.-2.0"; "0.0.0.-3"; "127.0.0.256"; "abc";
       "123:"; "fe80::1%lo0"; "fe80::1%911"; EmptyString;
       "0:0:0:0:000000:ffff:127.1.2.3"; "0:0:0:0:00000:ffff:127.1.2.3";
       "a1:a2:a3:a4::b1:b2:b3:b4"; "127.001.002.003"; "::ffff:127.001.002.003";
       "123.000.000.000"; "1.2..4"; "0123.0.0.1"; "127.000.000.001";
       "0127.0.0.1"; "::00001"; "::1%"; "::%lo0"; "1.2.3"; "1.2.3.4.5";
       ".1.2.3"; "1.2.3."; "1::2::3"; "1:2:3:4:5:6:7"; "1:2:3:4:5:6:7:8:9";
       "1:2:3:4:5:6:7::8"; "::10000"; "1.2.3.4%lo0"; "lo0%1.2.3.4"].
Proof. repeat split; repeat constructor. Qed.

(** The model of [SplitHostPort] on addresses it splits and addresses it
    refuses. *)
Lemma SplitHostPort_examples :
  SplitHostPort "www.google.com:80" = ("www.google.com", "80", None)
  ∧ SplitHostPort "127.0.0.1:1234" = ("127.0.0.1", "1234", None)
  ∧ SplitHostPort "[::1]:80" = ("::1", "80", None)
  ∧ SplitHostPort "[fe80::1%lo0]:80" = ("fe80::1%lo0", "80", None)
  ∧ SplitHostPort "localhost%lo0:80" = ("localhost%lo0", "80", None)
  ∧ SplitHostPort ":0" = (EmptyString, "0", None)
  ∧ Forall (λ a, (SplitHostPort a).2 = Some "missing port in address")
      ["www.google.com"; "127.0.0.1"; "[::1]"; "[fe80::1%lo0]"; "localhost%lo0";
       "[foo:bar]"; "[foo:bar]baz"; "[foo]bar:baz"]
  ∧ Forall (λ a, (SplitHostPort a).2 = Some "too many colons in address")
      ["::1"; "fe80::1%lo0"; "fe80::1%lo0:80"; "[foo]:[bar]:baz"]
  ∧ Forall (λ a, (SplitHostPort a).2 = Some "unexpected '[' in address")
      ["[foo]:[bar]baz"; "foo[bar]:baz"]
  ∧ (SplitHostPort "foo]bar:baz").2 = Some "unexpected ']' in address".
Proof. repeat split; repeat constructor. Qed.

Lemma octets_read : Forall octetRead (seq 0 256).
Proof.
  repeat (apply Forall_cons; split;
          [ unfold octetRead; repeat split; intros; first [reflexivity | eauto] |]).
  constructor.
Qed.

Lemma octet_read (n : nat) : (n < 256)%nat → octetRead n.
Proof.
  intros Hn. pose proof octets_read as H. rewrite Forall_forall in H.
  apply H, elem_of_seq. lia.
Qed.

Lemma length_decimal (n : nat) : (n < 256)%nat → (1 <= String.length (decimal n))%nat.
Proof.
  intros Hn. destruct (octet_read n Hn) as (_ & _ & (c & t & ->) & _).
  cbn [String.length]. lia.
Qed.

Lemma isDigit_not_dot (c : ascii) : isDigit c = true → Ascii.eqb c "." = false.
Proof.
  intros H. destruct (Ascii.eqb_spec c ".") as [->|]; [discriminate H | done].
Qed.

(** The dot between two octets: a step of the loop of [parseIPv4Fields]
    at a dot that follows a digit. *)
Lemma parseIPv4FieldsLoop_dot (r : string) (i : nat) (prev : ascii) (val : Z)
    (pos digLen : nat) (fields : list Z) :
  isDigit prev = true → (1 <= i)%nat →
  parseIPv4FieldsLoop (String "." r) i prev val pos digLen fields
  = if isEmpty r then None
    else if (pos =? 3)%nat then None
    else parseIPv4FieldsLoop r (S i) "." 0 (S pos) 0 (<[pos := val mod 256]> fields).
Proof.
  intros Hprev Hi. cbn [parseIPv4FieldsLoop].
  change (isDigit ".") with false. cbv iota.
  rewrite Ascii.eqb_refl, (isDigit_not_dot prev Hprev).
  assert ((i =? 0)%nat = false) as -> by (apply Nat.eqb_neq; lia).
  rewrite orb_false_r. reflexivity.
Qed.

(** An octet and the dot after it. *)
Lemma parseIPv4FieldsLoop_octet (n : nat) (r : string) (i : nat) (prev : ascii)
    (pos : nat) (fields : list Z) :
  (n < 256)%nat →
  parseIPv4FieldsLoop (decimal n +:+ String "." r) i prev 0 pos 0 fields
  = if isEmpty r then None
    else if (pos =? 3)%nat then None
    else parseIPv4FieldsLoop r (S (String.length (decimal n) + i)) "." 0 (S pos) 0
           (<[pos := Z.of_nat n]> fields).
Proof.
  intros Hn. destruct (octet_read n Hn) as (Hoct & _ & _ & Hlast & _).
  rewrite Hoct, parseIPv4FieldsLoop_dot;
    [|exact Hlast|pose proof (length_decimal n Hn); lia].
  by rewrite Z.mod_small by lia.
Qed.

Lemma isEmpty_decimal (n : nat) (r : string) :
  (n < 256)%nat → isEmpty (decimal n +:+ r) = false.
Proof.
  intros Hn. destruct (octet_read n Hn) as (_ & _ & (c & t & ->) & _).
  by unfold_app.
Qed.

(** Every IPv4 address in dotted decimal form is read as itself. *)
Lemma parseIPv4Fields_dottedQuad (a b c d : nat) :
  (a < 256)%nat → (b < 256)%nat → (c < 256)%nat → (d < 256)%nat →
  parseIPv4Fields (dottedQuad a b c d)
  = Some [Z.of_nat a; Z.of_nat b; Z.of_nat c; Z.of_nat d].
Proof.
  intros Ha Hb Hc Hd. unfold parseIPv4Fields, dottedQuad.
  rewrite !parseIPv4FieldsLoop_octet, !isEmpty_decimal by assumption.
  cbn [Nat.eqb].
  destruct (octet_read d Hd) as (Hoct & _).
  rewrite <- (app_empty_r (decimal d)), Hoct, isEmpty_decimal by assumption.
  cbn [parseIPv4FieldsLoop Nat.ltb Nat.leb].
  by rewrite Z.mod_small by lia.
Qed.

Lemma ParseIP_dottedQuad (a b c d : nat) :
  (a < 256)%nat → (b < 256)%nat → (c < 256)%nat → (d < 256)%nat →
  ParseIP (dottedQuad a b c d)
  = IPv4 (Z.of_nat a) (Z.of_nat b) (Z.of_nat c) (Z.of_nat d).
Proof.
  intros Ha Hb Hc Hd. unfold ParseIP, parseIP, ParseAddr.
  destruct (octet_read a Ha) as (_ & Hscan & _).
  unfold dottedQuad at 1. rewrite Hscan.
  unfold parseIPv4. by rewrite parseIPv4Fields_dottedQuad.
Qed.

(** *** What [parseIPv4Fields] accepts

    The parser refuses an octet with a leading zero, so the text it
    accepts is the dotted decimal form itself. *)

Lemma isDigit_digitChar (c : ascii) :
  isDigit c = true → ∃ k, (k < 10)%nat ∧ c = digitChar k.
Proof.
  intros H. exists (nat_of_ascii c - 48)%nat. revert H.
  destruct c as [[] [] [] [] [] [] [] []]; try (intros H; discriminate H);
    intros _; (split; [vm_compute; lia | reflexivity]).
Qed.

Lemma digitChar_value (k : nat) :
  (k < 10)%nat → byteOf (digitChar k) - byteOf "0" = Z.of_nat k.
Proof. intros Hk. do 10 (destruct k as [|k]; [reflexivity|]). lia. Qed.

Lemma decimal_digit (k : nat) :
  (k < 10)%nat → decimal k = String (digitChar k) EmptyString.
Proof. intros Hk. do 10 (destruct k as [|k]; [reflexivity|]). lia. Qed.

Lemma decimals_snoc :
  Forall (λ n, decimal n = decimal (n / 10) +:+ String (digitChar (n mod 10)) EmptyString)
    (seq 10 246).
Proof. repeat constructor. Qed.

(** One more digit after a number that is not zero. *)
Lemma decimal_snoc (v k : nat) :
  (1 <= v)%nat → (k < 10)%nat → (10 * v + k < 256)%nat →
  decimal (10 * v + k) = decimal v +:+ String (digitChar k) EmptyString.
Proof.
  intros Hv Hk Hn. pose proof decimals_snoc as H. rewrite Forall_forall in H.
  specialize (H (10 * v + k)%nat). rewrite H by (apply elem_of_seq; lia).
  replace ((10 * v + k) / 10)%nat with v
    by (apply (Nat.div_unique _ _ _ k); lia).
  replace ((10 * v + k) mod 10)%nat with k
    by (apply (Nat.mod_unique _ _ v); lia).
  reflexivity.
Qed.

(** The rest of an octet of which [decimal v] has been read. *)
Lemma parseIPv4FieldsLoop_rest (s : string) (v i : nat) (prev : ascii) (pos : nat)
    (fields : list Z) (res : Z * nat * list Z) :
  (v < 256)%nat →
  parseIPv4FieldsLoop s i prev (Z.of_nat v) pos (String.length (decimal v)) fields
  = Some res →
  ∃ n suffix r, (n < 256)%nat ∧ decimal n = decimal v +:+ suffix
    ∧ s = suffix +:+ r ∧ (r = EmptyString ∨ ∃ r', r = String "." r').
Proof.
  revert v i prev. induction s as [|c s IH]; intros v i prev Hv H.
  - exists v, EmptyString, EmptyString. by rewrite app_empty_r; auto.
  - cbn [parseIPv4FieldsLoop] in H. destruct (isDigit c) eqn:Hc.
    + apply isDigit_digitChar in Hc as (k & Hk & ->).
      destruct (_ && _) eqn:Hzero; [done|].
      rewrite digitChar_value in H by exact Hk.
      destruct (_ >? 255) eqn:Hbig; [done|].
      assert (1 <= v)%nat as Hv1.
      { destruct v; [|lia]. by cbv in Hzero. }
      assert (10 * v + k < 256)%nat as Hn.
      { rewrite Z.gtb_ltb in Hbig. apply Z.ltb_ge in Hbig. lia. }
      pose proof (decimal_snoc v k Hv1 Hk Hn) as Hsnoc.
      replace (Z.of_nat v * 10 + Z.of_nat k) with (Z.of_nat (10 * v + k)) in H by lia.
      replace (S (String.length (decimal v)))
        with (String.length (decimal (10 * v + k))) in H
        by (rewrite Hsnoc, length_app_String; cbn [String.length]; lia).
      apply IH in H as (n & suffix & r & Hn' & Hdec & -> & Hr); [|exact Hn].
      exists n, (String (digitChar k) suffix), r.
      split; [exact Hn'|]. split; [|by unfold_app].
      rewrite Hdec, Hsnoc, app_String_assoc. by unfold_app.
    + destruct (Ascii.eqb_spec c ".") as [->|]; [|done].
      exists v, EmptyString, (String "." s). rewrite app_empty_r. eauto 6.
Qed.

(** An octet from its start: what is read is [decimal n] for an [n]
    below 256, and what follows is the end or a dot. *)
Lemma parseIPv4FieldsLoop_inv (s : string) (i : nat) (prev : ascii) (pos : nat)
    (fields : list Z) (res : Z * nat * list Z) :
  i = 0%nat ∨ prev = "."%char →
  parseIPv4FieldsLoop s i prev 0 pos 0 fields = Some res →
  s = EmptyString
  ∨ ∃ n r, (n < 256)%nat ∧ s = decimal n +:+ r
      ∧ (r = EmptyString ∨ ∃ r', r = String "." r').
Proof.
  intros Hstart H. destruct s as [|c s]; [by left | right].
  cbn [parseIPv4FieldsLoop] in H. destruct (isDigit c) eqn:Hc.
  - apply isDigit_digitChar in Hc as (k & Hk & ->).
    cbn [Nat.eqb andb] in H. rewrite digitChar_value in H by exact Hk.
    change (0 * 10 + Z.of_nat k) with (Z.of_nat k) in H.
    destruct (_ >? 255); [done|].
    change 1%nat with (String.length (String (digitChar k) EmptyString)) in H.
    rewrite <- (decimal_digit k Hk) in H.
    apply parseIPv4FieldsLoop_rest in H as (n & suffix & r & Hn & Hdec & -> & Hr); [|lia].
    exists n, r. split; [exact Hn|]. split; [|exact Hr].
    rewrite Hdec, (decimal_digit k Hk). by unfold_app.
  - destruct (Ascii.eqb_spec c ".") as [->|]; [|done].
    destruct Hstart as [-> | ->]; [done|]. by rewrite orb_true_r in H.
Qed.

(** [parseIPv4Fields] accepts the dotted decimal forms and nothing
    else. *)
Lemma parseIPv4Fields_inv (s : string) (fields : list Z) :
  parseIPv4Fields s = Some fields →
  ∃ a b c d, (a < 256)%nat ∧ (b < 256)%nat ∧ (c < 256)%nat ∧ (d < 256)%nat
    ∧ s = dottedQuad a b c d.
Proof.
  unfold parseIPv4Fields.
  destruct (parseIPv4FieldsLoop s 0 _ 0 0 0 _) as [[[val pos] f]|] eqn:H; [|done].
  destruct (pos <? 3)%nat eqn:Hpos; [done|]. intros _.
  apply Nat.ltb_ge in Hpos.
  pose proof H as Ha.
  apply (parseIPv4FieldsLoop_inv _ _ _ _ _ _ (or_introl eq_refl)) in Ha
    as [-> | (a & r & Ha & -> & Hr)].
  { injection H as _ <- _. lia. }
  destruct Hr as [-> | [r1 ->]].
  { destruct (octet_read a Ha) as (Hoct & _). rewrite Hoct in H.
    injection H as _ <- _. lia. }
  rewrite parseIPv4FieldsLoop_octet in H by exact Ha.
  destruct (isEmpty r1) eqn:He1; [done|]. cbn [Nat.eqb] in H.
  pose proof H as Hb.
  apply (parseIPv4FieldsLoop_inv _ _ _ _ _ _ (or_intror eq_refl)) in Hb
    as [-> | (b & r & Hb & -> & Hr)]; [done|].
  destruct Hr as [-> | [r2 ->]].
  { destruct (octet_read b Hb) as (Hoct & _). rewrite Hoct in H.
    injection H as _ <- _. lia. }
  rewrite parseIPv4FieldsLoop_octet in H by exact Hb.
  destruct (isEmpty r2) eqn:He2; [done|]. cbn [Nat.eqb] in H.
  pose proof H as Hc.
  apply (parseIPv4FieldsLoop_inv _ _ _ _ _ _ (or_intror eq_refl)) in Hc
    as [-> | (c & r & Hc & -> & Hr)]; [done|].
  destruct Hr as [-> | [r3 ->]].
  { destruct (octet_read c Hc) as (Hoct & _). rewrite Hoct in H.
    injection H as _ <- _. lia. }
  rewrite parseIPv4FieldsLoop_octet in H by exact Hc.
  destruct (isEmpty r3) eqn:He3; [done|]. cbn [Nat.eqb] in H.
  pose proof H as Hd.
  apply (parseIPv4FieldsLoop_inv _ _ _ _ _ _ (or_intror eq_refl)) in Hd
    as [-> | (d & r & Hd & -> & Hr)]; [done|].
  destruct Hr as [-> | [r4 ->]].
  { exists a, b, c, d. rewrite app_empty_r. by repeat (split; [assumption|]). }
  rewrite parseIPv4FieldsLoop_octet in H by exact Hd.
  by destruct (isEmpty r4).
Qed.

(** Without a colon an address is read by [parseIPv4] or not at all. *)
Lemma parseAddrScan_no_colon (s whole : string) :
  hasByte ":" s = false →
  parseAddrScan s whole = None ∨ parseAddrScan s whole = parseIPv4 whole.
Proof.
  induction s as [|c s IH]; cbn [parseAddrScan hasByte]; [by left|].
  intros [Hc Hs]%orb_false_iff. destruct (Ascii.eqb c "."); [by right|].
  rewrite Hc. destruct (Ascii.eqb c "%"); [by left|]. by apply IH.
Qed.

(** What [ParseIP] reads in a host without a colon is an IPv4 address in
    dotted decimal form, without leading zeros. *)
Lemma ParseIP_no_colon (host : string) :
  hasByte ":" host = false → ParseIP host ≠ [] →
  ∃ a b c d, (a < 256)%nat ∧ (b < 256)%nat ∧ (c < 256)%nat ∧ (d < 256)%nat
    ∧ host = dottedQuad a b c d.
Proof.
  intros Hc. unfold ParseIP, parseIP, ParseAddr.
  destruct (parseAddrScan_no_colon host host Hc) as [-> | ->]; [done|].
  unfold parseIPv4. destruct (parseIPv4Fields host) as [fields|] eqn:H; [|done].
  intros _. by apply parseIPv4Fields_inv in H.
Qed.

Lemma noneOf_app (cs a b : string) :
  noneOf cs (a +:+ b) = noneOf cs a && noneOf cs b.
Proof.
  unfold noneOf. induction a as [|x a IH]; unfold_app; simpl; [done|].
  rewrite IH. apply andb_assoc.
Qed.

(** An IPv4 address is a loopback address when its first octet is 127. *)
Lemma IsLoopback_IPv4 (a b c d : Z) : IsLoopback (IPv4 a b c d) = (a =? 127).
Proof. reflexivity. Qed.

Lemma dottedQuad_not_localhost (a b c d : nat) :
  (a < 256)%nat → String.eqb (dottedQuad a b c d) "localhost" = false.
Proof.
  intros Ha. destruct (octet_read a Ha) as (_ & _ & _ & _ & _ & Hname).
  apply Hname.
Qed.

Lemma noneOf_String (cs : string) (c : ascii) (s : string) :
  noneOf cs (String c s) = negb (hasByte c cs) && noneOf cs s.
Proof. reflexivity. Qed.

Lemma noneOf_dottedQuad (a b c d : nat) :
  (a < 256)%nat → (b < 256)%nat → (c < 256)%nat → (d < 256)%nat →
  noneOf ":%[]" (dottedQuad a b c d) = true.
Proof.
  intros Ha Hb Hc Hd.
  destruct (octet_read a Ha) as (_ & _ & _ & _ & Hna & _).
  destruct (octet_read b Hb) as (_ & _ & _ & _ & Hnb & _).
  destruct (octet_read c Hc) as (_ & _ & _ & _ & Hnc & _).
  destruct (octet_read d Hd) as (_ & _ & _ & _ & Hnd & _).
  unfold dottedQuad.
  rewrite !noneOf_app, !noneOf_String, !noneOf_app, !noneOf_String, !noneOf_app,
    !noneOf_String, Hna, Hnb, Hnc, Hnd.
  reflexivity.
Qed.

(** [byteIndex] finds a byte exactly when the string holds one. *)
Lemma byteIndexFrom_found (s : string) (c : ascii) (i : Z) :
  0 <= i → (byteIndexFrom s c i >=? 0) = hasByte c s.
Proof.
  revert i. induction s as [|d s IH]; intros i Hi; simpl; [done|].
  destruct (Ascii.eqb d c); simpl; [lia|]. apply IH. lia.
Qed.

Lemma byteIndex_found (s : string) (c : ascii) : (byteIndex s c >=? 0) = hasByte c s.
Proof. by apply byteIndexFrom_found. Qed.

(** The first occurrence, when what precedes it holds none. *)
Lemma byteIndexFrom_first (a t : string) (c : ascii) (i : Z) :
  hasByte c a = false →
  byteIndexFrom (a +:+ String c t) c i = i + Z.of_nat (String.length a).
Proof.
  revert i. induction a as [|d a IH]; intros i; unfold_app; simpl.
  - intros _. rewrite Ascii.eqb_refl. lia.
  - intros [Hd Ha]%orb_false_iff. rewrite Hd, IH by exact Ha. lia.
Qed.

Lemma lastFrom_none (s : string) (b : ascii) (i found : Z) :
  hasByte b s = false → lastFrom s b i found = found.
Proof.
  revert i found. induction s as [|d s IH]; intros i found; simpl; [done|].
  intros [Hd Hs]%orb_false_iff. by rewrite Hd, IH.
Qed.

(** The last occurrence, when what follows it holds none. *)
Lemma lastFrom_last (a t : string) (b : ascii) (i found : Z) :
  hasByte b t = false →
  lastFrom (a +:+ String b t) b i found = i + Z.of_nat (String.length a).
Proof.
  intros Ht. revert i found. induction a as [|d a IH]; intros i found; unfold_app; simpl.
  - rewrite Ascii.eqb_refl, lastFrom_none by exact Ht. lia.
  - rewrite IH. lia.
Qed.

Lemma last_none (s : string) (b : ascii) : hasByte b s = false → last s b = -1.
Proof. apply lastFrom_none. Qed.

Lemma get_0_hasByte (s : string) (c : ascii) :
  hasByte c s = false → bool_decide (String.get 0 s = Some c) = false.
Proof.
  intros Hs. apply bool_decide_eq_false. destruct s as [|d s]; [done|].
  simpl in *. apply orb_false_iff in Hs as [Hd _].
  intros [= ->]. by rewrite Ascii.eqb_refl in Hd.
Qed.

Lemma dropString_0 (s : string) : dropString 0 s = s.
Proof. by destruct s. Qed.

Lemma dropString_S_app (a t : string) (c : ascii) :
  dropString (S (String.length a)) (a +:+ String c t) = t.
Proof. induction a as [|d a IH]; unfold_app; simpl; [apply dropString_0 | done]. Qed.

Lemma dropString_cons (n : nat) (c : ascii) (s : string) :
  dropString (S n) (String c s) = dropString n s.
Proof. reflexivity. Qed.

Lemma dropString_SS_app (a t : string) (c d : ascii) :
  dropString (S (S (String.length a))) (a +:+ String c (String d t)) = t.
Proof.
  induction a as [|x a IH]; unfold_app; [apply dropString_0 | exact IH].
Qed.

(** [host:port]: a host without colon or bracket and a port without
    colon or bracket are what [SplitHostPort] returns. *)
Lemma SplitHostPort_plain (host port : string) :
  hasByte ":" host = false →
  hasByte "[" host = false → hasByte "]" host = false →
  hasByte ":" port = false → hasByte "[" port = false → hasByte "]" port = false →
  SplitHostPort (host +:+ String ":" port) = (host, port, None).
Proof.
  intros Hc Hl Hr Hpc Hpl Hpr. unfold SplitHostPort. cbv beta zeta.
  unfold last. rewrite lastFrom_last by exact Hpc.
  rewrite Z.add_0_l.
  assert ((Z.of_nat (String.length host) <? 0) = false) as -> by zcompare.
  rewrite get_0_hasByte
    by (rewrite hasByte_app; cbn [hasByte]; rewrite Hl, Hpl; reflexivity).
  unfold slice. rewrite Nat2Z.id, Nat.sub_0_r, dropString_0, takeString_app.
  rewrite !byteIndex_found, Hc.
  change (Z.to_nat 0) with 0%nat. rewrite !dropString_0.
  rewrite !hasByte_app. cbn [hasByte]. rewrite Hl, Hpl, Hr, Hpr. cbn [orb Ascii.eqb].
  replace (Z.to_nat (Z.of_nat (String.length host) + 1))
    with (S (String.length host)) by lia.
  by rewrite dropString_S_app.
Qed.

(** [[host]:port]: between brackets the host may hold colons. *)
Lemma SplitHostPort_bracket (host port : string) :
  hasByte "[" host = false → hasByte "]" host = false →
  hasByte ":" port = false → hasByte "[" port = false → hasByte "]" port = false →
  SplitHostPort (String "[" (host +:+ String "]" (String ":" port)))
  = (host, port, None).
Proof.
  intros Hl Hr Hpc Hpl Hpr. unfold SplitHostPort. cbv beta zeta.
  set (hostport := String "[" (host +:+ String "]" (String ":" port))).
  assert (Hlast : last hostport ":" = Z.of_nat (String.length host) + 2).
  { unfold hostport.
    assert (String "[" (host +:+ String "]" (String ":" port))
            = String "[" (host +:+ String "]" EmptyString) +:+ String ":" port) as ->.
    { unfold_app. f_equal. by rewrite app_String_assoc. }
    unfold last. rewrite lastFrom_last by exact Hpc.
    cbn [String.length]. rewrite length_app_String. cbn [String.length]. lia. }
  assert (Hend : byteIndex hostport "]" = Z.of_nat (String.length host) + 1).
  { unfold hostport, byteIndex. cbn [byteIndexFrom Ascii.eqb Bool.eqb].
    rewrite byteIndexFrom_first by exact Hr. lia. }
  rewrite Hlast, Hend.
  assert ((Z.of_nat (String.length host) + 2 <? 0) = false) as -> by zcompare.
  assert (bool_decide (String.get 0 hostport = Some "["%char) = true) as ->
    by (by apply bool_decide_eq_true).
  assert ((Z.of_nat (String.length host) + 1 <? 0) = false) as -> by zcompare.
  assert (lenZ hostport = Z.of_nat (String.length host) + 3 + lenZ port) as ->.
  { unfold hostport, lenZ. cbn [String.length]. rewrite length_app_String.
    cbn [String.length]. lia. }
  assert ((Z.of_nat (String.length host) + 1 + 1
           =? Z.of_nat (String.length host) + 3 + lenZ port) = false) as ->
    by (unfold lenZ; zcompare).
  assert ((Z.of_nat (String.length host) + 1 + 1
           =? Z.of_nat (String.length host) + 2) = true) as -> by zcompare.
  change (Z.to_nat 1) with 1%nat.
  replace (Z.to_nat (Z.of_nat (String.length host) + 1 + 1))
    with (S (S (String.length host))) by lia.
  replace (Z.to_nat (Z.of_nat (String.length host) + 2 + 1))
    with (S (S (S (String.length host)))) by lia.
  replace (Z.to_nat (Z.of_nat (String.length host) + 1))
    with (S (String.length host)) by lia.
  unfold slice, hostport.
  rewrite !dropString_cons, dropString_0, dropString_S_app, dropString_SS_app.
  replace (S (String.length host) - 1)%nat with (String.length host) by lia.
  rewrite takeString_app.
  rewrite !byteIndex_found, !hasByte_app. cbn [hasByte].
  rewrite Hl, Hpl, Hpr. cbn [orb Ascii.eqb Bool.eqb]. reflexivity.
Qed.

(** Without a colon there is no port. *)
Lemma SplitHostPort_no_port (addr : string) :
  hasByte ":" addr = false →
  SplitHostPort addr = (EmptyString, EmptyString, Some "missing port in address").
Proof.
  intros H. unfold SplitHostPort. cbv beta zeta. by rewrite last_none.
Qed.


(** A stricter set of excluded characters excludes the smaller one. *)
Lemma noneOf_weaken (cs cs' s : string) :
  (∀ c, hasByte c cs' = true → hasByte c cs = true) →
  noneOf cs s = true → noneOf cs' s = true.
Proof.
  intros Hsub. unfold noneOf. induction s as [|x s IH]; [done|].
  cbn [allChars]. intros [Hx Hs]%andb_true_iff.
  apply andb_true_iff. split; [|by apply IH].
  apply negb_true_iff in Hx. apply negb_true_iff.
  destruct (hasByte x cs') eqn:E; [|done].
  apply Hsub in E. congruence.
Qed.

Lemma byteIndexFrom_none (s : string) (c : ascii) (i : Z) :
  hasByte c s = false → byteIndexFrom s c i = -1.
Proof.
  revert i. induction s as [|d s IH]; intros i; simpl; [done|].
  intros [Hd Hs]%orb_false_iff. rewrite Hd. by apply IH.
Qed.


(** *** IPv6 text *)

Lemma parseIPv6Loop_S (fuel : nat) (st : v6state) :
  parseIPv6Loop (S fuel) st
  = if (v6i st <? IPv6len)%nat then
      match parseIPv6Step st with
      | None => None
      | Some (st', true) => parseIPv6Loop fuel st'
      | Some (st', false) => Some st'
      end
    else Some st.
Proof. reflexivity. Qed.

(** Without a percent sign there is no zone. *)
Lemma parseIPv6_no_zone (s : string) :
  hasByte "%" s = false →
  parseIPv6 s
  = match s with
    | String ":" (String ":" EmptyString) =>
        Some (Addr6 (replicate IPv6len 0) EmptyString)
    | String ":" (String ":" s') => parseIPv6Groups s' 0 EmptyString
    | _ => parseIPv6Groups s (-1) EmptyString
    end.
Proof.
  intros H. unfold parseIPv6, byteIndex. rewrite byteIndexFrom_none by exact H.
  reflexivity.
Qed.

(** An address that starts with the ellipsis and goes on. *)
Lemma ParseIP_ellipsis (c : ascii) (s : string) :
  hasByte "%" (String c s) = false →
  ParseIP (String ":" (String ":" (String c s)))
  = match parseIPv6Loop IPv6len (V6 (String c s) (replicate IPv6len 0) 0 0) with
    | Some st => match parseIPv6Finish st with Some ip => ip | None => [] end
    | None => []
    end.
Proof.
  intros H. unfold ParseIP, parseIP.
  change (ParseAddr (String ":" (String ":" (String c s))))
    with (parseIPv6 (String ":" (String ":" (String c s)))).
  rewrite parseIPv6_no_zone by exact H. unfold parseIPv6Groups.
  destruct (parseIPv6Loop _ _) as [st|]; [|done].
  by destruct (parseIPv6Finish st).
Qed.

Lemma hasByte_zeros (c : ascii) (k : nat) :
  Ascii.eqb "0" c = false → hasByte c (zeros k) = false.
Proof. intros H. induction k as [|k IH]; cbn [zeros hasByte]; [done|]. by rewrite H. Qed.

(** A group of more than four digits is refused, zeros included. *)
Lemma hexGroupLoop_long (c : ascii) (s : string) (d : Z) :
  hexDigit c = Some d →
  hexGroupLoop (String "0" (String "0" (String "0" (String "0" (String c s))))) 0 0
  = None.
Proof.
  intros H.
  change (hexGroupLoop (String c s) 4 0 = None). cbn [hexGroupLoop]. by rewrite H.
Qed.

(** [::1] with [k] zeros in front of the 1 is read as the loopback
    address as long as the group has four digits at most. *)
Lemma ParseIP_padded_one (k : nat) :
  ParseIP ("::" +:+ zeros k +:+ "1") = if (k <=? 3)%nat then IPv6loopback else [].
Proof.
  do 4 (destruct k as [|k]; [reflexivity|]).
  change (ParseIP (String ":" (String ":" (String "0" ("000" +:+ zeros k +:+ "1")))) = []).
  rewrite ParseIP_ellipsis.
  - unfold IPv6len at 1. rewrite parseIPv6Loop_S.
    change (v6i (V6 _ _ 0 0) <? IPv6len)%nat with true. cbv iota.
    unfold parseIPv6Step. cbn [v6rest].
    assert (∃ c s d, hexDigit c = Some d
              ∧ String "0" ("000" +:+ zeros k +:+ "1")
                = String "0" (String "0" (String "0" (String "0" (String c s)))))
      as (c & s & d & Hc & ->).
    { destruct k as [|k]; [by exists "1"%char, EmptyString, 1 |].
      by exists "0"%char, (zeros k +:+ "1"), 0. }
    by rewrite (hexGroupLoop_long c s d Hc).
  - change (hasByte "%" ("0000" +:+ (zeros k +:+ "1")) = false).
    by rewrite !hasByte_app, hasByte_zeros.
Qed.

Lemma noneOf_padded_one (k : nat) : noneOf "[]" ("::" +:+ zeros k +:+ "1") = true.
Proof.
  change (noneOf "[]" ("::" +:+ (zeros k +:+ "1")) = true).
  rewrite !noneOf_app. cbn [andb]. rewrite andb_true_r.
  apply andb_true_iff. split; [reflexivity|].
  unfold noneOf. induction k as [|k IH]; [done|]. cbn [zeros allChars]. by rewrite IH.
Qed.

Lemma padded_one_not_localhost (k : nat) :
  String.eqb ("::" +:+ zeros k +:+ "1") "localhost" = false.
Proof. reflexivity. Qed.

(** The first group of [ffff:] and what follows. *)
Lemma parseIPv6Step_ffff (c : ascii) (t : string) :
  Ascii.eqb c ":" = false →
  parseIPv6Step (V6 ("ffff:" +:+ String c t) (replicate IPv6len 0) 0 0)
  = Some (V6 (String c t) (<[1%nat:=255]> (<[0%nat:=255]> (replicate IPv6len 0))) 2 0,
          true).
Proof.
  intros H. destruct c as [[] [] [] [] [] [] [] []]; try reflexivity. by cbv in H.
Qed.

Lemma hasByte_dropString (c : ascii) (n : nat) (s : string) :
  hasByte c s = false → hasByte c (dropString n s) = false.
Proof.
  revert s. induction n as [|n IH]; intros [|d s]; cbn [dropString hasByte]; try done.
  intros [_ H]%orb_false_iff. by apply IH.
Qed.

(** The turn of the loop after [::ffff:], on a text [t] without colon:
    either [t] is an IPv4 address in dotted decimal form, or it is one
    hexadecimal group. *)
Lemma parseIPv6Loop_after_ffff (fuel : nat) (t : string) (ip : list Z) (st : v6state) :
  hasByte ":" t = false →
  parseIPv6Loop (S fuel) (V6 t ip 2 0) = Some st →
  (∃ a b c d, (a < 256)%nat ∧ (b < 256)%nat ∧ (c < 256)%nat ∧ (d < 256)%nat
     ∧ t = dottedQuad a b c d
     ∧ st = V6 EmptyString
              (<[5%nat:=Z.of_nat d]> (<[4%nat:=Z.of_nat c]>
                 (<[3%nat:=Z.of_nat b]> (<[2%nat:=Z.of_nat a]> ip)))) 6 0)
  ∨ (∃ acc, st = V6 EmptyString
                    (<[3%nat:=acc mod 256]> (<[2%nat:=(acc ≫ 8) mod 256]> ip)) 4 0).
Proof.
  intros Hc. rewrite parseIPv6Loop_S.
  change (v6i (V6 t ip 2 0) <? IPv6len)%nat with true. cbv iota.
  unfold parseIPv6Step. cbn [v6rest v6ip v6i v6ellipsis].
  destruct (hexGroupLoop t 0 0) as [[acc off]|]; [|done].
  destruct (off =? 0)%nat; [done|].
  destruct (_ && _).
  - cbn [Z.ltb Z.compare andb Nat.add Nat.ltb Nat.leb].
    destruct (parseIPv4Fields t) as [fields|] eqn:H4; [|done].
    pose proof H4 as Hq.
    apply parseIPv4Fields_inv in Hq as (a & b & c & d & Ha & Hb & Hc' & Hd & ->).
    rewrite parseIPv4Fields_dottedQuad in H4 by assumption. injection H4 as <-.
    intros [= <-]. left. exists a, b, c, d. by repeat (split; [assumption|]).
  - destruct (dropString off t) as [|c0 s0] eqn:Hd.
    + intros [= <-]. right. by exists acc.
    + pose proof (hasByte_dropString ":" off t Hc) as Hc0. rewrite Hd in Hc0.
      cbn [hasByte] in Hc0. apply orb_false_iff in Hc0 as [-> _]. done.
Qed.

(** A 16-byte address that ends in [ff ff hi lo] after twelve zeros is
    no loopback address. *)
Lemma IsLoopback_ffff_group (hi lo : Z) :
  IsLoopback (replicate 12 0 ++ [255; 255; hi; lo]) = false.
Proof.
  unfold IsLoopback, To4. cbn [replicate app length Nat.eqb IPv4len IPv6len andb].
  change (nth 10 _ 0 =? 255) with false. rewrite andb_false_r. cbv iota.
  unfold Equal, bytesEqual. cbn [length Nat.eqb IPv6loopback].
  apply bool_decide_eq_false. intros [=].
Qed.

(** The text after [::ffff:] that makes a loopback address, when it has
    no colon, is an IPv4 address in dotted decimal form that starts with
    127. *)
Lemma ParseIP_mapped_inv (t : string) :
  hasByte ":" t = false → hasByte "%" t = false →
  IsLoopback (ParseIP ("::ffff:" +:+ t)) = true →
  ∃ b c d, (b < 256)%nat ∧ (c < 256)%nat ∧ (d < 256)%nat ∧ t = dottedQuad 127 b c d.
Proof.
  intros Hc Hp. destruct t as [|c1 t1]; [intros H; discriminate H|].
  change ("::ffff:" +:+ String c1 t1)
    with (String ":" (String ":" (String "f" ("fff:" +:+ String c1 t1)))).
  rewrite ParseIP_ellipsis
    by (change (hasByte "%" ("ffff:" +:+ String c1 t1) = false);
        by rewrite hasByte_app, Hp).
  unfold IPv6len at 1. rewrite parseIPv6Loop_S.
  change (v6i (V6 _ _ 0 0) <? IPv6len)%nat with true. cbv iota.
  change (String "f" ("fff:" +:+ String c1 t1)) with ("ffff:" +:+ String c1 t1).
  rewrite parseIPv6Step_ffff
    by (cbn [hasByte] in Hc; by apply orb_false_iff in Hc as [-> _]).
  cbv iota beta.
  destruct (parseIPv6Loop 15 _) as [st|] eqn:Hloop; [|intros H; discriminate H].
  apply parseIPv6Loop_after_ffff in Hloop
    as [(a & b & c & d & Ha & Hb & Hc' & Hd & -> & ->) | (acc & ->)]; [| |exact Hc].
  - change (IsLoopback (IPv4 (Z.of_nat a) (Z.of_nat b) (Z.of_nat c) (Z.of_nat d)) = true
            → ∃ b0 c0 d0, (b0 < 256)%nat ∧ (c0 < 256)%nat ∧ (d0 < 256)%nat
                ∧ dottedQuad a b c d = dottedQuad 127 b0 c0 d0).
    rewrite IsLoopback_IPv4. intros H%Z.eqb_eq.
    replace a with 127%nat by lia. by exists b, c, d.
  - change (IsLoopback (replicate 12 0 ++ [255; 255; (acc ≫ 8) mod 256; acc mod 256]) = true
            → ∃ b c d, (b < 256)%nat ∧ (c < 256)%nat ∧ (d < 256)%nat
                ∧ String c1 t1 = dottedQuad 127 b c d).
    by rewrite IsLoopback_ffff_group.
Qed.

Lemma parseIPv6Step_127 (tail : string) (ip : list Z) :
  parseIPv6Step (V6 ("127." +:+ tail) ip 2 0)
  = match parseIPv4Fields ("127." +:+ tail) with
    | None => None
    | Some fields =>
        Some (V6 EmptyString
                (<[5%nat:=nth 3 fields 0]> (<[4%nat:=nth 2 fields 0]>
                   (<[3%nat:=nth 1 fields 0]> (<[2%nat:=nth 0 fields 0]> ip))))
                6 0, false)
    end.
Proof. reflexivity. Qed.

(** An IPv4-mapped address [::ffff:127.b.c.d] is read as the IPv4
    address. *)
Lemma ParseIP_mapped_127 (b c d : nat) :
  (b < 256)%nat → (c < 256)%nat → (d < 256)%nat →
  ParseIP ("::ffff:" +:+ dottedQuad 127 b c d)
  = IPv4 127 (Z.of_nat b) (Z.of_nat c) (Z.of_nat d).
Proof.
  intros Hb Hc Hd.
  pose proof (parseIPv4Fields_dottedQuad 127 b c d ltac:(lia) Hb Hc Hd) as H4.
  pose proof (noneOf_dottedQuad 127 b c d ltac:(lia) Hb Hc Hd) as Hnone.
  set (tail := decimal b +:+ String "." (decimal c +:+ String "." (decimal d))).
  change (dottedQuad 127 b c d) with ("127." +:+ tail) in *.
  change ("::ffff:" +:+ ("127." +:+ tail))
    with (String ":" (String ":" (String "f" ("fff:" +:+ ("127." +:+ tail))))).
  rewrite ParseIP_ellipsis.
  - unfold IPv6len at 1. rewrite parseIPv6Loop_S.
    change (v6i (V6 _ _ 0 0) <? IPv6len)%nat with true. cbv iota.
    change (String "f" ("fff:" +:+ ("127." +:+ tail)))
      with ("ffff:" +:+ String "1" ("27." +:+ tail)).
    rewrite parseIPv6Step_ffff by reflexivity. cbv iota beta.
    rewrite parseIPv6Loop_S.
    change (v6i (V6 _ _ 2 0) <? IPv6len)%nat with true. cbv iota.
    change (String "1" ("27." +:+ tail)) with ("127." +:+ tail).
    rewrite parseIPv6Step_127, H4. reflexivity.
  - change (hasByte "%" ("ffff:" +:+ ("127." +:+ tail)) = false).
    rewrite hasByte_app. apply orb_false_iff. split; [reflexivity|].
    by apply (noneOf_hasByte ":%[]").
Qed.

Lemma noneOf_mapped_text (t : string) :
  noneOf ":%[]" t = true → noneOf "[]" ("::ffff:" +:+ t) = true.
Proof.
  intros H. rewrite noneOf_app. apply andb_true_iff. split; [reflexivity|].
  apply (noneOf_weaken ":%[]"); [|exact H].
  intros x. cbn. intros Hx. by rewrite Hx, !orb_true_r.
Qed.

End NetFacts.

(** ** The dial gate *)

Module GateFacts.

Import Http Utils Net NetFacts.

Lemma isLocalAddr_split (addr host port : string) :
  SplitHostPort addr = (host, port, None) →
  isLocalAddr addr = String.eqb host "localhost" || IsLoopback (ParseIP host).
Proof. unfold isLocalAddr. by intros ->. Qed.

Lemma isLocalAddr_error (addr host port : string) (e : string) :
  SplitHostPort addr = (host, port, Some e) → isLocalAddr addr = false.
Proof. unfold isLocalAddr. by intros ->. Qed.

Lemma isLocalAddr_host (addr host port : string) :
  SplitHostPort addr = (host, port, None) →
  (isLocalAddr addr = true ↔ host = "localhost" ∨ loopbackIP (ParseIP host)).
Proof.
  intros H. rewrite (isLocalAddr_split addr host port H).
  by rewrite orb_true_iff, String.eqb_eq, IsLoopback_loopbackIP.
Qed.

(** C7.  For an address [host:port] (the host without colon or bracket)
    or [[host]:port] (the host without bracket), and in general for an
    address that [SplitHostPort] splits into [host] and [port],
    [isLocalAddr] is true if and only if the host is the literal
    "localhost" or [ParseIP] reads it as a loopback address: an IPv4
    address in 127.0.0.0/8 or the IPv6 address ::1.  It is false for an
    address that [SplitHostPort] refuses, in particular for one without a
    port, and for a host other than "localhost" that does not parse.
    For an IPv4 address [a.b.c.d] in dotted decimal form and any port it
    is true exactly when [a] is 127.

    In terms of the text of the host: a host without colon is local
    exactly when it is "localhost" or [127.b.c.d] in dotted decimal form,
    each octet below 256 and written without leading zeros; after
    [::ffff:] a text without colon makes a local address exactly when it
    is such a [127.b.c.d]; and [::1] with zeros in front of the 1 is
    local as long as the group has four digits at most. *)
Theorem isLocalAddr_contract :
  (∀ host port,
     noneOf ":[]" host = true → noneOf ":[]" port = true →
     (isLocalAddr (host +:+ String ":" port) = true ↔
      host = "localhost" ∨ loopbackIP (ParseIP host)))
  ∧ (∀ host port,
       noneOf "[]" host = true → noneOf ":[]" port = true →
       (isLocalAddr (String "[" (host +:+ String "]" (String ":" port))) = true ↔
        host = "localhost" ∨ loopbackIP (ParseIP host)))
  ∧ (∀ addr host port,
       SplitHostPort addr = (host, port, None) →
       (isLocalAddr addr = true ↔ host = "localhost" ∨ loopbackIP (ParseIP host)))
  ∧ (∀ addr host port e,
       SplitHostPort addr = (host, port, Some e) → isLocalAddr addr = false)
  ∧ (∀ addr, hasByte ":" addr = false → isLocalAddr addr = false)
  ∧ (∀ addr host port,
       SplitHostPort addr = (host, port, None) →
       host ≠ "localhost" → ParseIP host = [] → isLocalAddr addr = false)
  ∧ (∀ a b c d port,
       (a < 256)%nat → (b < 256)%nat → (c < 256)%nat → (d < 256)%nat →
       noneOf ":[]" port = true →
       isLocalAddr (dottedQuad a b c d +:+ String ":" port) = (a =? 127)%nat)
  ∧ (∀ host port,
       noneOf ":[]" host = true → noneOf ":[]" port = true →
       (isLocalAddr (host +:+ String ":" port) = true ↔
        host = "localhost"
        ∨ ∃ b c d, (b < 256)%nat ∧ (c < 256)%nat ∧ (d < 256)%nat
            ∧ host = dottedQuad 127 b c d))
  ∧ (∀ t port,
       noneOf ":%[]" t = true → noneOf ":[]" port = true →
       (isLocalAddr
          (String "[" (("::ffff:" +:+ t) +:+ String "]" (String ":" port))) = true ↔
        ∃ b c d, (b < 256)%nat ∧ (c < 256)%nat ∧ (d < 256)%nat
          ∧ t = dottedQuad 127 b c d))
  ∧ (∀ k port,
       noneOf ":[]" port = true →
       isLocalAddr
         (String "[" (("::" +:+ zeros k +:+ "1") +:+ String "]" (String ":" port)))
       = (k <=? 3)%nat).
Proof.
  assert (∀ host port,
            noneOf ":[]" host = true → noneOf ":[]" port = true →
            SplitHostPort (host +:+ String ":" port) = (host, port, None)) as Hplain.
  { intros host port Hh Hp. apply SplitHostPort_plain; by apply (noneOf_hasByte ":[]"). }
  assert (∀ host port,
            noneOf "[]" host = true → noneOf ":[]" port = true →
            SplitHostPort (String "[" (host +:+ String "]" (String ":" port)))
            = (host, port, None)) as Hbracket.
  { intros host port Hh Hp. apply SplitHostPort_bracket;
      first [ by apply (noneOf_hasByte "[]") | by apply (noneOf_hasByte ":[]") ]. }
  split; [|split; [|split; [|split; [|split; [|split; [|split; [|split; [|split]]]]]]]].
  - intros host port Hh Hp. by apply (isLocalAddr_host _ host port), Hplain.
  - intros host port Hh Hp. by apply (isLocalAddr_host _ host port), Hbracket.
  - apply isLocalAddr_host.
  - apply isLocalAddr_error.
  - intros addr H. eapply isLocalAddr_error. by apply SplitHostPort_no_port.
  - intros addr host port H Hne Hip. rewrite (isLocalAddr_split addr host port H).
    apply String.eqb_neq in Hne. by rewrite Hne, Hip.
  - intros a b c d port Ha Hb Hc Hd Hp.
    pose proof (noneOf_dottedQuad a b c d Ha Hb Hc Hd) as Hq.
    rewrite (isLocalAddr_split _ (dottedQuad a b c d) port).
    + rewrite dottedQuad_not_localhost, ParseIP_dottedQuad, IsLoopback_IPv4
        by assumption.
      cbn [orb]. destruct (Nat.eqb_spec a 127) as [->|Hne]; [done|].
      apply Z.eqb_neq. lia.
    + apply Hplain; [|exact Hp]. apply (noneOf_weaken ":%[]"); [|exact Hq].
      intros x. cbn [hasByte].
      repeat match goal with
             | |- context [Ascii.eqb ?a x] => destruct (Ascii.eqb a x)
             end; done.
  - intros host port Hh Hp.
    rewrite (isLocalAddr_split _ host port (Hplain host port Hh Hp)).
    rewrite orb_true_iff, String.eqb_eq. split.
    + intros [-> | Hloop]; [by left | right].
      destruct (ParseIP_no_colon host) as (a & b & c & d & Ha & Hb & Hc & Hd & ->).
      * by apply (noneOf_hasByte ":[]").
      * intros Hnil. by rewrite Hnil in Hloop.
      * rewrite ParseIP_dottedQuad, IsLoopback_IPv4 in Hloop by assumption.
        apply Z.eqb_eq in Hloop. replace a with 127%nat by lia. by exists b, c, d.
    + intros [-> | (b & c & d & Hb & Hc & Hd & ->)]; [by left | right].
      by rewrite ParseIP_dottedQuad, IsLoopback_IPv4 by (assumption || lia).
  - intros t port Ht Hp.
    rewrite (isLocalAddr_split _ ("::ffff:" +:+ t) port)
      by (apply Hbracket; [by apply noneOf_mapped_text | exact Hp]).
    change (String.eqb ("::ffff:" +:+ t) "localhost") with false. cbn [orb]. split.
    + apply ParseIP_mapped_inv; by apply (noneOf_hasByte ":%[]").
    + intros (b & c & d & Hb & Hc & Hd & ->).
      by rewrite ParseIP_mapped_127, IsLoopback_IPv4 by assumption.
  - intros k port Hp.
    rewrite (isLocalAddr_split _ ("::" +:+ zeros k +:+ "1") port)
      by (apply Hbracket; [apply noneOf_padded_one | exact Hp]).
    rewrite padded_one_not_localhost, ParseIP_padded_one.
    by destruct (k <=? 3)%nat.
Qed.

(** The addresses of the spec's eighth testable property; an octet with
    leading zeros and a group of five digits, which are not local. *)
Lemma isLocalAddr_contract_examples :
  isLocalAddr "localhost:80" = true
  ∧ isLocalAddr "127.0.0.1:8080" = true
  ∧ isLocalAddr "[::1]:443" = true
  ∧ isLocalAddr "93.184.216.34:80" = false
  ∧ isLocalAddr "bad-addr" = false
  ∧ isLocalAddr "127.000.000.001:80" = false
  ∧ isLocalAddr "[::0001]:80" = true
  ∧ isLocalAddr "[::00001]:80" = false.
Proof.
  destruct isLocalAddr_contract
    as (Hplain & Hbracket & _ & _ & Hnoport & Hnoparse & Hquad & _ & _ & Hpad).
  split; [|split; [|split; [|split; [|split; [|split; [|split]]]]]].
  - apply (Hplain "localhost" "80"); [reflexivity..|]. by left.
  - apply (Hquad 127 0 0 1 "8080")%nat; [lia..|reflexivity].
  - apply (Hbracket "::1" "443"); [reflexivity..|]. right. by right.
  - apply (Hquad 93 184 216 34 "80")%nat; [lia..|reflexivity].
  - apply Hnoport. reflexivity.
  - apply (Hnoparse "127.000.000.001:80" "127.000.000.001" "80");
      [reflexivity | discriminate | reflexivity].
  - apply (Hpad 3%nat "80"). reflexivity.
  - apply (Hpad 4%nat "80"). reflexivity.
Defined.

(** C3.  [OutgoingAccessAllowed] starts as true, and then every dial
    proceeds.  A dial is refused exactly when [OutgoingAccessAllowed] is
    false and the address is not local; otherwise it proceeds. *)
Theorem dial_gate_contract :
  OutgoingAccessAllowed initialGlobals = true
  ∧ (∀ address, AllowDial initialGlobals address = Proceed)
  ∧ (∀ g address,
       AllowDial g address = ConnectionRefused ↔
       OutgoingAccessAllowed g = false ∧ isLocalAddr address = false)
  ∧ (∀ g address,
       AllowDial g address = Proceed ↔
       ¬ (OutgoingAccessAllowed g = false ∧ isLocalAddr address = false)).
Proof.
  split; [reflexivity|]. split; [reflexivity|]. split.
  - intros [allowed] address. unfold AllowDial. cbn [OutgoingAccessAllowed].
    destruct allowed, (isLocalAddr address); cbn; split;
      first [ done | by intros [? ?] ].
  - intros [allowed] address. unfold AllowDial. cbn [OutgoingAccessAllowed].
    destruct allowed, (isLocalAddr address); cbn; split;
      first [ done | by intros [? ?] | by intros ? [? ?] | intros H; by destruct H ].
Qed.

(** With the switch off a dial to 93.184.216.34:80 is refused and a dial
    to localhost:8080 proceeds. *)
Lemma dial_gate_contract_examples :
  AllowDial (mkGlobals false) "93.184.216.34:80" = ConnectionRefused
  ∧ AllowDial (mkGlobals false) "localhost:8080" = Proceed.
Proof.
  destruct dial_gate_contract as (_ & _ & Hrefused & Hproceed).
  split.
  - apply Hrefused. split; reflexivity.
  - apply Hproceed. intros [_ H]. discriminate.
Defined.

(** Every client of the factory dials through the gate. *)
Lemma factory_clients_are_gated (certificatesOfPEM : string → list X509.Certificate)
    (baselineMinVersion : Z) (baselineCipherSuites : list Z)
    (verify : SSLHostnameVerification) (certs : list string) (c : Client)
    (g : Globals) (address : string) :
  GetHTTPClient certificatesOfPEM baselineMinVersion baselineCipherSuites verify certs
  = Some c →
  transportDial g (transportOf c) address = AllowDial g address.
Proof.
  destruct certs as [|cert certs]; [destruct verify|]; by intros [= <-].
Qed.

End GateFacts.

(** ** strconv.ParseInt in base 10 and 32 bits *)

Module StrconvFacts.

Import Strconv.
Local Open Scope Z_scope.

(** Boolean comparisons of integers, decided through [lia]. *)
Ltac zbool :=
  rewrite ?Z.geb_leb, ?Z.gtb_ltb;
  first [ apply Z.leb_le; lia | apply Z.leb_gt; lia
        | apply Z.ltb_lt; lia | apply Z.ltb_ge; lia
        | apply Z.eqb_eq; lia | apply Z.eqb_neq; lia ].

Lemma digitVal_decimal (d : ascii) :
  isDecimalDigit d = true →
  digitVal d = Some (byteOf d - byteOf "0") ∧ 0 <= byteOf d - byteOf "0" < 10.
Proof.
  unfold isDecimalDigit, digitVal. intros H. rewrite H.
  apply andb_true_iff in H as [H1 H2]. apply Z.leb_le in H1, H2.
  change (byteOf "9") with 57 in *. change (byteOf "0") with 48 in *.
  split; [done | lia].
Qed.

Lemma digitVal_other (d : ascii) :
  isDecimalDigit d = false →
  digitVal d = None ∨ ∃ v, digitVal d = Some v ∧ 10 <= v.
Proof.
  unfold isDecimalDigit, digitVal. intros ->.
  repeat case_match; eauto; right; eexists; (split; [done|]);
    repeat match goal with
           | H : _ && _ = true |- _ => apply andb_true_iff in H as [? ?]
           | H : (_ <=? _) = true |- _ => apply Z.leb_le in H
           end; lia.
Qed.

Lemma decimalValueFrom_ge (s : string) (n : Z) :
  allChars isDecimalDigit s = true → 0 <= n → n <= decimalValueFrom s n.
Proof.
  revert n. induction s as [|d s IH]; intros n; simpl; [lia|].
  intros [Hd Hs]%andb_true_iff Hn.
  destruct (digitVal_decimal d Hd) as [_ Hv].
  specialize (IH (n * 10 + (byteOf d - byteOf "0")) Hs). lia.
Qed.

(** The loop on decimal digits: the number, or [ErrRange] past 32 bits. *)
Lemma parseUintLoop_digits (s : string) (n : Z) :
  allChars isDecimalDigit s = true → 0 <= n <= 4294967295 →
  parseUintLoop s 10 1844674407370955162 4294967295 n
  = if decimalValueFrom s n <=? 4294967295
    then (decimalValueFrom s n, None)
    else (maxUint64, Some ErrRange).
Proof.
  revert n. induction s as [|d s IH]; intros n; simpl.
  - intros _ Hn. by assert ((n <=? 4294967295) = true) as -> by zbool.
  - intros [Hd Hs]%andb_true_iff Hn.
    destruct (digitVal_decimal d Hd) as [-> Hv].
    set (v := byteOf d - byteOf "0") in *.
    assert ((v >=? 10) = false) as -> by zbool.
    assert ((n >=? 1844674407370955162) = false) as -> by zbool.
    unfold uint64. rewrite (Z.mod_small (n * 10)) by lia.
    rewrite (Z.mod_small (n * 10 + v)) by lia.
    assert ((n * 10 + v <? n * 10) = false) as -> by zbool.
    cbn [orb]. destruct (n * 10 + v >? 4294967295) eqn:Hbig.
    + apply Z.gtb_lt in Hbig.
      pose proof (decimalValueFrom_ge s (n * 10 + v) Hs ltac:(lia)).
      by assert ((decimalValueFrom s (n * 10 + v) <=? 4294967295) = false) as ->
        by zbool.
    + apply IH; [done|]. rewrite Z.gtb_ltb in Hbig. apply Z.ltb_ge in Hbig. lia.
Qed.

(** The loop on a string that holds something else than decimal digits:
    an error, [ErrRange] when the digits before were too many. *)
Lemma parseUintLoop_other (s : string) (n : Z) :
  allChars isDecimalDigit s = false →
  parseUintLoop s 10 1844674407370955162 4294967295 n = (0, Some ErrSyntax)
  ∨ parseUintLoop s 10 1844674407370955162 4294967295 n = (maxUint64, Some ErrRange).
Proof.
  revert n. induction s as [|d s IH]; intros n; simpl; [done|].
  destruct (isDecimalDigit d) eqn:Hd; simpl.
  - intros Hs. destruct (digitVal_decimal d Hd) as [-> Hv].
    repeat case_match; eauto.
  - intros _. destruct (digitVal_other d Hd) as [->|(v & -> & Hv)]; [eauto|].
    assert ((v >=? 10) = true) as -> by zbool. eauto.
Qed.

Lemma ParseUint_digits (s : string) :
  s ≠ EmptyString → allChars isDecimalDigit s = true →
  ParseUint s 10 32
  = if decimalValue s <=? 4294967295
    then (decimalValue s, None)
    else (maxUint64, Some (mkNumError "ParseUint" s ErrRange)).
Proof.
  intros Hne Hs. unfold ParseUint. destruct s as [|d s]; [done|].
  cbn [String.length Nat.ltb Nat.leb].
  change (maxUint64 / 10 + 1) with 1844674407370955162.
  change (uint64 (uint64 (Z.shiftl 1 32) - 1)) with 4294967295.
  rewrite parseUintLoop_digits by (done || lia).
  unfold decimalValue.
  destruct (decimalValueFrom (String d s) 0 <=? 4294967295); reflexivity.
Qed.

Lemma ParseUint_other (s : string) :
  allChars isDecimalDigit s = false →
  ParseUint s 10 32 = (0, Some (mkNumError "ParseUint" s ErrSyntax))
  ∨ ParseUint s 10 32 = (maxUint64, Some (mkNumError "ParseUint" s ErrRange)).
Proof.
  intros Hs. unfold ParseUint. destruct s as [|d s]; [done|].
  cbn [String.length Nat.ltb Nat.leb].
  change (maxUint64 / 10 + 1) with 1844674407370955162.
  change (uint64 (uint64 (Z.shiftl 1 32) - 1)) with 4294967295.
  destruct (parseUintLoop_other (String d s) 0 Hs) as [-> | ->]; eauto.
Qed.

Lemma ParseUint_empty : ParseUint EmptyString 10 32
  = (0, Some (mkNumError "ParseUint" EmptyString ErrSyntax)).
Proof. reflexivity. Qed.

Lemma decimalValue_nonneg (s : string) :
  allChars isDecimalDigit s = true → 0 <= decimalValue s.
Proof. intros Hs. by apply decimalValueFrom_ge. Qed.

(** What [ParseUint] returns in base 10 and 32 bits: the number, when
    [s] is decimal digits and the number fits; or one of two errors. *)
Lemma ParseUint_cases (s : string) :
  (s ≠ EmptyString ∧ allChars isDecimalDigit s = true
   ∧ decimalValue s <= 4294967295 ∧ ParseUint s 10 32 = (decimalValue s, None))
  ∨ ((s = EmptyString ∨ allChars isDecimalDigit s = false)
     ∧ ParseUint s 10 32 = (0, Some (mkNumError "ParseUint" s ErrSyntax)))
  ∨ ((allChars isDecimalDigit s = false ∨ 4294967295 < decimalValue s)
     ∧ ParseUint s 10 32 = (maxUint64, Some (mkNumError "ParseUint" s ErrRange))).
Proof.
  destruct s as [|d s]; [right; left; eauto|].
  destruct (allChars isDecimalDigit (String d s)) eqn:Hs.
  - rewrite ParseUint_digits by done.
    destruct (decimalValue (String d s) <=? 4294967295) eqn:Hle.
    + apply Z.leb_le in Hle. left. done.
    + apply Z.leb_gt in Hle. right. right. split; [by right | done].
  - destruct (ParseUint_other (String d s) Hs) as [-> | ->]; eauto 6.
Qed.

Lemma ParseInt_afterSign (c0 : ascii) (rest : string) :
  ParseInt (String c0 rest) 10 32
  = if Ascii.eqb c0 "+" then afterSign (String c0 rest) false rest
    else if Ascii.eqb c0 "-" then afterSign (String c0 rest) true rest
    else afterSign (String c0 rest) false (String c0 rest).
Proof.
  unfold ParseInt, afterSign.
  destruct (Ascii.eqb c0 "+"); [done|]. by destruct (Ascii.eqb c0 "-").
Qed.

Lemma int64_small (n : Z) : - 2 ^ 63 <= n < 2 ^ 63 → int64 n = n.
Proof.
  intros Hn. unfold int64.
  rewrite Z.mod_small; change (2 ^ 64) with (2 * 2 ^ 63); lia.
Qed.

(** [afterSign] accepts exactly the decimal numbers that fit 32 bits with
    their sign; its errors name [ParseInt] and the whole input. *)
Lemma afterSign_accepts (s0 s1 : string) (neg : bool) (v : Z) :
  afterSign s0 neg s1 = (v, None) ↔
  s1 ≠ EmptyString ∧ allChars isDecimalDigit s1 = true
  ∧ v = (if neg then - decimalValue s1 else decimalValue s1)
  ∧ - 2147483648 <= v <= 2147483647.
Proof.
  unfold afterSign.
  change (uint64 (Z.shiftl 1 (32 - 1))) with 2147483648.
  destruct (ParseUint_cases s1) as [(Hne & Hs & Hle & ->) | [[Hbad ->] | [Hbad ->]]].
  - pose proof (decimalValue_nonneg s1 Hs) as H0. cbv iota beta.
    destruct neg; cbn [negb andb].
    + destruct (decimalValue s1 >? 2147483648) eqn:Hgt.
      * apply Z.gtb_lt in Hgt. split; [done|]. intros (_ & _ & -> & ?). lia.
      * rewrite Z.gtb_ltb in Hgt. apply Z.ltb_ge in Hgt.
        rewrite (int64_small (decimalValue s1)) by lia.
        rewrite int64_small by lia. split.
        -- intros [= <-]. repeat split; done || lia.
        -- intros (_ & _ & -> & _). done.
    + destruct (decimalValue s1 >=? 2147483648) eqn:Hge.
      * rewrite Z.geb_leb in Hge. apply Z.leb_le in Hge.
        split; [done|]. intros (_ & _ & -> & ?). lia.
      * rewrite Z.geb_leb in Hge. apply Z.leb_gt in Hge.
        rewrite int64_small by lia. split.
        -- intros [= <-]. repeat split; done || lia.
        -- intros (_ & _ & -> & _). done.
  - cbn. split; [done|]. intros (Hne & Hs & _). destruct Hbad; congruence.
  - cbn [Err]. cbv iota beta.
    assert ((maxUint64 >=? 2147483648) = true) as -> by done.
    assert ((maxUint64 >? 2147483648) = true) as -> by done.
    destruct neg; cbn [negb andb]; (split; [done|]).
    + intros (Hne & Hs & -> & Hr).
      destruct Hbad as [Hbad|Hbad]; [congruence | lia].
    + intros (Hne & Hs & -> & Hr).
      destruct Hbad as [Hbad|Hbad]; [congruence | lia].
Qed.

Lemma afterSign_error (s0 s1 : string) (neg : bool) (v : Z) (e : NumError) :
  afterSign s0 neg s1 = (v, Some e) → Func e = "ParseInt" ∧ Num e = s0.
Proof.
  unfold afterSign. destruct (ParseUint s1 10 32) as [un err].
  repeat case_match; intros [= <- <-]; done.
Qed.

Lemma isDecimalDigit_not_sign (c : ascii) :
  isDecimalDigit c = true → Ascii.eqb c "+" = false ∧ Ascii.eqb c "-" = false.
Proof.
  intros H. split; apply Ascii.eqb_neq; intros ->; discriminate.
Qed.

(** [ParseInt(s, 10, 32)] returns [v] without error exactly when [s] is
    the decimal number [v], with an optional sign, and [v] fits 32
    bits. *)
Lemma ParseInt_accepts (s : string) (v : Z) :
  ParseInt s 10 32 = (v, None) ↔
  signedDecimal s v ∧ - 2147483648 <= v <= 2147483647.
Proof.
  destruct s as [|c0 rest].
  { split; [done|]. intros [(digits & Hne & _ & [[<- _]|[[[=] _]|[[=] _]]]) _]. done. }
  rewrite ParseInt_afterSign. unfold signedDecimal.
  destruct (Ascii.eqb c0 "+") eqn:Hplus;
    [|destruct (Ascii.eqb c0 "-") eqn:Hminus]; rewrite afterSign_accepts.
  - apply Ascii.eqb_eq in Hplus as ->. split.
    + intros (Hne & Hs & -> & Hr). split; [|done]. exists rest. eauto 6.
    + intros [(digits & Hne & Hs & [[<- _]|[[[= <-] ->]|[[=] _]]]) Hr]; [|done].
      discriminate.
  - apply Ascii.eqb_eq in Hminus as ->. split.
    + intros (Hne & Hs & -> & Hr). split; [|done]. exists rest. eauto 6.
    + intros [(digits & Hne & Hs & [[<- _]|[[[=] _]|[[= <-] ->]]]) Hr]; [|done].
      discriminate.
  - apply Ascii.eqb_neq in Hplus, Hminus. split.
    + intros (Hne & Hs & -> & Hr). split; [|done]. exists (String c0 rest). eauto 6.
    + intros [(digits & Hne & Hs & [[<- ->]|[[[= ? ?] _]|[[= ? ?] _]]]) Hr]; done.
Qed.

Lemma ParseInt_error (s : string) (v : Z) (e : NumError) :
  ParseInt s 10 32 = (v, Some e) → Func e = "ParseInt" ∧ Num e = s.
Proof.
  destruct s as [|c0 rest]; [by intros [= <- <-]|].
  rewrite ParseInt_afterSign.
  repeat case_match; apply afterSign_error.
Qed.

Lemma signedDecimal_no_dot (s : string) (v : Z) :
  signedDecimal s v → hasByte "." s = false.
Proof.
  assert (Hd : ∀ d, allChars isDecimalDigit d = true → hasByte "." d = false).
  { induction d as [|c d IH]; simpl; [done|]. intros [Hc Hs]%andb_true_iff.
    rewrite IH by done. apply orb_false_iff. split; [|done].
    apply Ascii.eqb_neq. intros ->. discriminate. }
  intros (digits & _ & Hs & [[-> _]|[[-> _]|[-> _]]]); simpl; auto.
Qed.

End StrconvFacts.

(** ** The series of the host *)

Module SeriesFacts.

Import Series Strconv StrconvFacts Strings StringsFacts.
Local Open Scope Z_scope.

(** The major portion of a version: what precedes its first dot. *)
Lemma major_of_dotted (major rest : string) :
  hasByte "." major = false →
  nth 0 (SplitN (major +:+ String "." rest) "." 2) EmptyString = major.
Proof. intros H. by rewrite SplitN_2, cutByte_first. Qed.

Lemma major_of_undotted (major : string) :
  hasByte "." major = false →
  nth 0 (SplitN major "." 2) EmptyString = major.
Proof.
  intros H. rewrite SplitN_2.
  by assert (cutByte "." major = None) as -> by by apply cutByte_None.
Qed.

(** A version is its major portion alone, or the major portion, a dot
    and the rest. *)
Lemma version_shape (full : string) :
  ∃ major, hasByte "." major = false
    ∧ nth 0 (SplitN full "." 2) EmptyString = major
    ∧ (full = major ∨ ∃ rest, full = major +:+ String "." rest).
Proof.
  destruct (cutByte "." full) as [[a b]|] eqn:Hcut.
  - apply cutByte_inv in Hcut as [-> Ha]. exists a.
    split; [done|]. split; [by apply major_of_dotted | eauto].
  - apply cutByte_None in Hcut. exists full.
    split; [done|]. split; [by apply major_of_undotted | eauto].
Qed.

Lemma kernelToMajor_version (full : string) :
  kernelToMajor (λ _, (full, None))
  = match ParseInt (nth 0 (SplitN full "." 2) EmptyString) 10 32 with
    | (_, Some e) => (0, Some (ErrNum e))
    | (v, None) => (v, None)
    end.
Proof.
  unfold kernelToMajor.
  by destruct (ParseInt (nth 0 (SplitN full "." 2) EmptyString) 10 32) as [v [e|]].
Qed.

Lemma kernelToMajor_iff (getKernelVersion : unit → string * option error)
    (v : Z) :
  kernelToMajor getKernelVersion = (v, None) ↔
  ∃ major, (getKernelVersion tt).2 = None
    ∧ signedDecimal major v ∧ - 2147483648 <= v <= 2147483647
    ∧ ((getKernelVersion tt).1 = major
       ∨ ∃ rest, (getKernelVersion tt).1 = major +:+ String "." rest).
Proof.
  unfold kernelToMajor. destruct (getKernelVersion tt) as [full [e|]]; cbn [fst snd].
  { split; [done|]. by intros (major & [=] & _). }
  fold (kernelToMajor (λ _, (full, None))). rewrite kernelToMajor_version.
  destruct (version_shape full) as (major & Hdot & Hmajor & Hshape).
  rewrite Hmajor. split.
  - destruct (ParseInt major 10 32) as [w [e|]] eqn:Hparse; [done|].
    intros [= ->]. apply ParseInt_accepts in Hparse as [Hsd Hr].
    exists major. done.
  - intros (major' & _ & Hsd & Hr & Hshape').
    assert (major' = major) as ->.
    { pose proof (signedDecimal_no_dot major' v Hsd) as Hdot'.
      rewrite <- Hmajor.
      destruct Hshape' as [->|[rest ->]]; symmetry;
        [by apply major_of_undotted | by apply major_of_dotted]. }
    assert (ParseInt major 10 32 = (v, None)) as -> by by apply ParseInt_accepts.
    done.
Qed.

(** X5.  [kernelToMajor] returns [v] without error exactly when
    [getKernelVersion] returns no error and the version is the decimal
    number [v], with an optional sign and within 32 bits, alone or
    followed by a dot and anything: only what precedes the first dot is
    read. *)
Theorem kernelToMajor_accepts (getKernelVersion : unit → string * option error)
    (v : Z) :
  kernelToMajor getKernelVersion = (v, None) ↔
  ∃ major, (getKernelVersion tt).2 = None
    ∧ signedDecimal major v ∧ - 2147483648 <= v <= 2147483647
    ∧ ((getKernelVersion tt).1 = major
       ∨ ∃ rest, (getKernelVersion tt).1 = major +:+ String "." rest).
Proof. apply kernelToMajor_iff. Qed.

(** Darwin 15.6.0 has major version 15; so has "015", and "+15.x". *)
Lemma kernelToMajor_accepts_examples :
  kernelToMajor (λ _, ("15.6.0", None)) = (15, None)
  ∧ kernelToMajor (λ _, ("015", None)) = (15, None)
  ∧ kernelToMajor (λ _, ("+15.x", None)) = (15, None).
Proof.
  split; [|split].
  - apply (kernelToMajor_accepts (λ _, ("15.6.0", None)) 15). exists "15".
    split; [done|]. split; [exists "15"; by eauto 6|]. split; [lia|].
    right. by exists "6.0".
  - apply (kernelToMajor_accepts (λ _, ("015", None)) 15). exists "015".
    split; [done|]. split; [exists "015"; by eauto 6|]. split; [lia|]. by left.
  - apply (kernelToMajor_accepts (λ _, ("+15.x", None)) 15). exists "+15".
    split; [done|]. split; [exists "15"; by eauto 6|]. split; [lia|].
    right. by exists "x".
Defined.

(** X6.  When [kernelToMajor] returns an error the major version is 0.
    The error is the one [getKernelVersion] returned, unchanged, or else
    an error of [ParseInt] that names the major portion of the version,
    not the whole version.  An error of [getKernelVersion] is always
    returned, whatever version comes with it. *)
Theorem kernelToMajor_errors (getKernelVersion : unit → string * option error) :
  (∀ v e, kernelToMajor getKernelVersion = (v, Some e) →
     v = 0
     ∧ ((getKernelVersion tt).2 = Some e
        ∨ ((getKernelVersion tt).2 = None
           ∧ ∃ kind, e = ErrNum (mkNumError "ParseInt"
                        (nth 0 (SplitN (getKernelVersion tt).1 "." 2) EmptyString)
                        kind))))
  ∧ (∀ e, (getKernelVersion tt).2 = Some e →
       kernelToMajor getKernelVersion = (0, Some e)).
Proof.
  unfold kernelToMajor. destruct (getKernelVersion tt) as [full [e0|]]; cbn [fst snd].
  - split; [|by intros e [= ->]]. intros v e [= <- <-]. eauto.
  - split; [|done]. intros v e.
    destruct (ParseInt _ 10 32) as [w [ne|]] eqn:Hparse; [|done].
    intros [= <- <-]. split; [done|]. right. split; [done|].
    destruct (ParseInt_error _ _ _ Hparse) as [HF HN].
    exists (Err ne). destruct ne as [f n k]. cbn in *. by subst.
Qed.

(** A version without digits, and an error of the caller's function. *)
Lemma kernelToMajor_errors_examples :
  kernelToMajor (λ _, ("15.6.0", Some (ErrExternal "uname failed")))
  = (0, Some (ErrExternal "uname failed"))
  ∧ (∀ v e, kernelToMajor (λ _, ("x.1", None)) = (v, Some e) → v = 0).
Proof.
  split.
  - apply (proj2 (kernelToMajor_errors
                    (λ _, ("15.6.0", Some (ErrExternal "uname failed"))))).
    reflexivity.
  - intros v e H.
    apply (proj1 (kernelToMajor_errors (λ _, ("x.1", None))) v e H).
Defined.

(** The table, by what it holds. *)
Lemma macOSXSeries_lookup (v : Z) (name : string) :
  macOSXSeries !! v = Some name ↔ seriesNamed v name.
Proof.
  unfold macOSXSeries, seriesNamed. rewrite <- elem_of_list_to_map; [done|].
  compute_done.
Qed.

Lemma seriesNamed_range (v : Z) (name : string) :
  seriesNamed v name → 5 <= v <= 15 ∧ name ≠ "unknown" ∧ name ≠ EmptyString.
Proof.
  unfold seriesNamed. rewrite !elem_of_cons, elem_of_nil.
  intros H. repeat destruct H as [[= -> ->]|H]; try done; (split; [lia|done]).
Qed.

Lemma seriesNamed_total (v : Z) : 5 <= v <= 15 → ∃ name, seriesNamed v name.
Proof.
  intros Hv. unfold seriesNamed.
  assert (v = 5 ∨ v = 6 ∨ v = 7 ∨ v = 8 ∨ v = 9 ∨ v = 10 ∨ v = 11 ∨ v = 12
          ∨ v = 13 ∨ v = 14 ∨ v = 15) as H by lia.
  repeat destruct H as [->|H]; try subst v;
    (eexists; apply list_elem_of_In; cbn; eauto 20).
Qed.

Lemma seriesNamed_inj (v v' : Z) (name : string) :
  seriesNamed v name → seriesNamed v' name → v = v'.
Proof.
  unfold seriesNamed. rewrite !elem_of_cons, !elem_of_nil.
  intros H H'.
  repeat destruct H as [[= -> ->]|H]; try done;
    repeat destruct H' as [[= ->]|H']; done.
Qed.

Lemma macOSXSeriesFromMajorVersion_named (v : Z) (name : string) :
  macOSXSeriesFromMajorVersion v = (name, None) ↔ seriesNamed v name.
Proof.
  rewrite <- macOSXSeries_lookup. unfold macOSXSeriesFromMajorVersion.
  destruct (macOSXSeries !! v); split; by intros [= ->] || done.
Qed.

Lemma macOSXSeriesFromMajorVersion_unknown (v : Z) (name : string) (e : error) :
  macOSXSeriesFromMajorVersion v = (name, Some e) → name = "unknown".
Proof.
  unfold macOSXSeriesFromMajorVersion. destruct (macOSXSeries !! v); by intros [= <- <-].
Qed.

(** X7.  [macOSXSeriesFromMajorVersion] knows exactly the major versions
    5 to 15: for them it returns a series without error, never "unknown"
    and never empty, and different versions have different series.  For
    every other version it returns "unknown" with an error whose one
    argument is the empty string: the error does not tell the version. *)
Theorem macOSXSeriesFromMajorVersion_known (v : Z) :
  ((∃ name, macOSXSeriesFromMajorVersion v = (name, None)) ↔ 5 <= v <= 15)
  ∧ (∀ name, macOSXSeriesFromMajorVersion v = (name, None) →
       name ≠ "unknown" ∧ name ≠ EmptyString
       ∧ ∀ v', macOSXSeriesFromMajorVersion v' = (name, None) → v' = v)
  ∧ (¬ 5 <= v <= 15 →
       macOSXSeriesFromMajorVersion v
       = ("unknown", Some (Errorf "unknown series %q" [EmptyString]))).
Proof.
  pose proof macOSXSeriesFromMajorVersion_named as Hsome.
  split; [|split].
  - split.
    + intros [name H%Hsome]. by apply seriesNamed_range in H as [? _].
    + intros [name H]%seriesNamed_total. exists name. by apply Hsome.
  - intros name H%Hsome. destruct (seriesNamed_range v name H) as (_ & ? & ?).
    split; [done|]. split; [done|]. intros v' H'%Hsome.
    by apply (seriesNamed_inj v' v name).
  - intros Hout. unfold macOSXSeriesFromMajorVersion.
    destruct (macOSXSeries !! v) as [name|] eqn:Hlook; [|done].
    apply macOSXSeries_lookup, seriesNamed_range in Hlook as [? _]. done.
Qed.

(** Darwin 15 is "elcapitan"; Darwin 16 and 4 are not known. *)
Lemma macOSXSeriesFromMajorVersion_known_examples :
  (∃ name, macOSXSeriesFromMajorVersion 15 = (name, None))
  ∧ macOSXSeriesFromMajorVersion 16
    = ("unknown", Some (Errorf "unknown series %q" [EmptyString]))
  ∧ macOSXSeriesFromMajorVersion 4
    = ("unknown", Some (Errorf "unknown series %q" [EmptyString])).
Proof.
  split; [|split].
  - apply (proj1 (macOSXSeriesFromMajorVersion_known 15)). lia.
  - apply (proj2 (proj2 (macOSXSeriesFromMajorVersion_known 16))). lia.
  - apply (proj2 (proj2 (macOSXSeriesFromMajorVersion_known 4))). lia.
Defined.

(** X8.  [macOSXSeriesFromKernelVersion] returns the series "unknown"
    exactly when it returns an error.  It logs only when the version
    could not be read: then the one entry holds the error it returns, as
    [kernelToMajor] gave it; a version that is read and not in the table
    is not logged. *)
Theorem macOSXSeriesFromKernelVersion_unknown
    (getKernelVersion : unit → string * option error) :
  ((macOSXSeriesFromKernelVersion getKernelVersion).1.2 = None ↔
   (macOSXSeriesFromKernelVersion getKernelVersion).1.1 ≠ "unknown")
  ∧ ((macOSXSeriesFromKernelVersion getKernelVersion).2 = [] ↔
     (kernelToMajor getKernelVersion).2 = None)
  ∧ (∀ e, (kernelToMajor getKernelVersion).2 = Some e →
       macOSXSeriesFromKernelVersion getKernelVersion
       = ("unknown", Some e,
          [mkLogEntry "unable to determine OS version: %v" e])).
Proof.
  unfold macOSXSeriesFromKernelVersion.
  destruct (kernelToMajor getKernelVersion) as [v [e|]]; cbn [fst snd].
  - split; [split; done|]. split; [split; done|]. by intros e' [= ->].
  - destruct (macOSXSeriesFromMajorVersion v) as [name [e|]] eqn:Hname; cbn [fst snd].
    + apply macOSXSeriesFromMajorVersion_unknown in Hname as ->.
      split; [split; done|]. split; done.
    + apply macOSXSeriesFromMajorVersion_named, seriesNamed_range in Hname
        as (_ & Hname & _).
      split; [split; done|]. split; done.
Qed.

(** A version that does not parse is logged; Darwin 16 is not. *)
Lemma macOSXSeriesFromKernelVersion_unknown_examples :
  (macOSXSeriesFromKernelVersion (λ _, ("16.0.0", None))).2 = []
  ∧ (macOSXSeriesFromKernelVersion (λ _, ("16.0.0", None))).1.1 = "unknown"
  ∧ macOSXSeriesFromKernelVersion (λ _, ("x", Some (ErrExternal "uname failed")))
    = ("unknown", Some (ErrExternal "uname failed"),
       [mkLogEntry "unable to determine OS version: %v" (ErrExternal "uname failed")]).
Proof.
  split; [|split].
  - apply (proj1 (proj2 (macOSXSeriesFromKernelVersion_unknown
                           (λ _, ("16.0.0", None))))). reflexivity.
  - reflexivity.
  - apply (proj2 (proj2 (macOSXSeriesFromKernelVersion_unknown
                           (λ _, ("x", Some (ErrExternal "uname failed")))))).
    reflexivity.
Defined.

(** X9.  [macOSXSeriesFromKernelVersion] returns the series [name]
    without error exactly when [getKernelVersion] returns no error and
    the major portion of the version, what precedes its first dot, is a
    decimal number (with an optional sign) for which the table holds
    [name]; nothing is logged then. *)
Theorem macOSXSeriesFromKernelVersion_known
    (getKernelVersion : unit → string * option error) (name : string) :
  ((∃ log, macOSXSeriesFromKernelVersion getKernelVersion = (name, None, log)) ↔
   ∃ major v, (getKernelVersion tt).2 = None
     ∧ signedDecimal major v
     ∧ ((getKernelVersion tt).1 = major
        ∨ ∃ rest, (getKernelVersion tt).1 = major +:+ String "." rest)
     ∧ macOSXSeries !! v = Some name)
  ∧ (∀ log, macOSXSeriesFromKernelVersion getKernelVersion = (name, None, log) →
       log = []).
Proof.
  unfold macOSXSeriesFromKernelVersion. split; [split|].
  - intros [log H].
    destruct (kernelToMajor getKernelVersion) as [v [e|]] eqn:Hk; [done|].
    apply kernelToMajor_iff in Hk as (major & Hnone & Hsd & Hr & Hshape).
    destruct (macOSXSeriesFromMajorVersion v) as [name' [e|]] eqn:Hname; [done|].
    injection H as -> <-.
    apply macOSXSeriesFromMajorVersion_named, macOSXSeries_lookup in Hname.
    exists major, v. done.
  - intros (major & v & Hnone & Hsd & Hshape & Hlook).
    pose proof Hlook as Hnamed. apply macOSXSeries_lookup in Hnamed.
    destruct (seriesNamed_range v name Hnamed) as [Hv _].
    assert (kernelToMajor getKernelVersion = (v, None)) as ->.
    { apply kernelToMajor_iff. exists major. repeat split; done || lia. }
    apply macOSXSeriesFromMajorVersion_named in Hnamed as ->. eauto.
  - intros log.
    destruct (kernelToMajor getKernelVersion) as [v [e|]]; [done|].
    destruct (macOSXSeriesFromMajorVersion v) as [name' [e|]]; by intros [= _ <-].
Qed.

(** Darwin 15.6.0 is "elcapitan" and Darwin 9.8.0 is "leopard". *)
Lemma macOSXSeriesFromKernelVersion_known_examples :
  (∃ log, macOSXSeriesFromKernelVersion (λ _, ("15.6.0", None))
          = ("elcapitan", None, log))
  ∧ (∃ log, macOSXSeriesFromKernelVersion (λ _, ("9.8.0", None))
            = ("leopard", None, log)).
Proof.
  split.
  - apply (proj1 (macOSXSeriesFromKernelVersion_known
                    (λ _, ("15.6.0", None)) "elcapitan")).
    exists "15", 15. split; [done|]. split; [exists "15"; by eauto 6|].
    split; [right; by exists "6.0" | reflexivity].
  - apply (proj1 (macOSXSeriesFromKernelVersion_known
                    (λ _, ("9.8.0", None)) "leopard")).
    exists "9", 9. split; [done|]. split; [exists "9"; by eauto 6|].
    split; [right; by exists "8.0" | reflexivity].
Defined.

(** *** HostSeries *)

Section Host.

Variable readSeries : nat → string * option error.

Local Abbreviation firstResult := (firstResult readSeries).
Local Abbreviation afterFirst := (afterFirst readSeries).

Lemma HostSeries_first :
  HostSeries readSeries initialGlobals = (firstResult.1, firstResult.2, afterFirst).
Proof.
  unfold HostSeries, Series.afterFirst, Series.firstResult, initialGlobals.
  cbn [seriesOnceDone readSeriesCalls seriesErr].
  destruct (readSeries 0) as [s0 [e|]]; reflexivity.
Qed.

Lemma HostSeries_again :
  HostSeries readSeries afterFirst = (firstResult.1, firstResult.2, afterFirst).
Proof. reflexivity. Qed.

Lemma HostSeriesTimes_again (n : nat) :
  HostSeriesTimes readSeries n afterFirst = (replicate n firstResult, afterFirst).
Proof.
  induction n as [|n IH]; [done|].
  cbn [HostSeriesTimes]. rewrite HostSeries_again, IH.
  cbn [replicate]. by destruct firstResult.
Qed.

(** X10.  [HostSeries] reads the series once: however often it is
    called, every call returns what the first call returned, [readSeries]
    has been called exactly once, and a failed reading is not tried
    again.  The series is the one [readSeries] returned, also when it
    returned an error; the error is wrapped with "cannot determine host
    series". *)
Theorem HostSeries_once (n : nat) :
  HostSeriesTimes readSeries (S n) initialGlobals
  = (replicate (S n)
       ((readSeries 0).1,
        match (readSeries 0).2 with
        | Some e => Some (Annotate e "cannot determine host series")
        | None => None
        end),
     mkGlobals true (readSeries 0).1
       (match (readSeries 0).2 with
        | Some e => Some (Annotate e "cannot determine host series")
        | None => None
        end) 1).
Proof.
  cbn [HostSeriesTimes]. rewrite HostSeries_first, HostSeriesTimes_again.
  reflexivity.
Qed.

(** X11.  [MustHostSeries] panics exactly when the first reading of the
    series failed, with the wrapped error, and returns the series
    otherwise; a second call does the same as the first and calls
    [readSeries] no more. *)
Theorem MustHostSeries_outcome :
  (∀ e, (MustHostSeries readSeries initialGlobals).1
        = Panics string (Annotate e "cannot determine host series")
        ↔ (readSeries 0).2 = Some e)
  ∧ (∀ s, (MustHostSeries readSeries initialGlobals).1 = Returns string s
          ↔ readSeries 0 = (s, None))
  ∧ MustHostSeries readSeries (MustHostSeries readSeries initialGlobals).2
    = MustHostSeries readSeries initialGlobals
  ∧ readSeriesCalls (MustHostSeries readSeries initialGlobals).2 = 1%nat.
Proof.
  unfold MustHostSeries. rewrite HostSeries_first.
  unfold Series.afterFirst, Series.firstResult.
  destruct (readSeries 0) as [s0 [e0|]]; cbn.
  - split; [intros e; split; by intros [= ->]|].
    split; [intros s; split; by intros [=]|]. done.
  - split; [intros e; split; by intros [=]|].
    split; [intros s; split; by intros [= ->]|]. done.
Qed.

End Host.

(** A failed reading: the error stays, though a second reading would
    succeed. *)
Lemma HostSeries_once_example :
  HostSeriesTimes
    (λ n, if (n =? 0)%nat then ("unknown", Some (ErrExternal "no os-release"))
          else ("xenial", None))
    3 initialGlobals
  = (replicate 3
       ("unknown",
        Some (Annotate (ErrExternal "no os-release") "cannot determine host series")),
     mkGlobals true "unknown"
       (Some (Annotate (ErrExternal "no os-release") "cannot determine host series"))
       1).
Proof.
  apply (HostSeries_once
           (λ n, if (n =? 0)%nat then ("unknown", Some (ErrExternal "no os-release"))
                 else ("xenial", None)) 2).
Defined.

Lemma MustHostSeries_outcome_example :
  (MustHostSeries (λ _, ("xenial", None)) initialGlobals).1 = Returns string "xenial".
Proof.
  apply (proj1 (proj2 (MustHostSeries_outcome (λ _, ("xenial", None))))).
  reflexivity.
Defined.

End SeriesFacts.

(** ** More on the Basic-Auth codec *)

Module CodecMore.

Import Http Utils Strings StringsFacts Base64 Base64Facts CodecFacts.

(** What the parser makes of a header written by [BasicAuthHeader]: the
    two sides of the first colon of [username:password]. *)
Lemma ParseBasicAuthHeader_BasicAuthHeader (u p : string) :
  ParseBasicAuthHeader (BasicAuthHeader u p)
  = match cutByte ":" (u +:+ String ":" p) with
    | Some (a, b) => (a, b, None)
    | None => (EmptyString, EmptyString, Some "invalid HTTP auth contents")
    end.
Proof.
  rewrite BasicAuthHeader_authorization, ParseBasicAuthHeader_fields, Get_authorization.
  pose proof (Fields_Basic EmptyString " " EmptyString
                (EncodeToString (u +:+ ":" +:+ p))) as HF.
  rewrite app_empty_r in HF. rewrite app_empty_l in HF.
  change ("Basic" +:+ " " +:+ ?x) with ("Basic " +:+ x) in HF.
  rewrite HF;
    [|done|done|done|done|apply EncodeToString_plain
     |apply EncodeToString_nonempty, payload_nonempty].
  change (String.eqb "Basic" "Basic") with true. cbv iota.
  by rewrite DecodeString_EncodeToString.
Qed.

(** X1.  Decoding a header written by [BasicAuthHeader] never fails,
    whatever the username and the password hold.  It returns the two
    sides of the first colon of [username:password]: joined by a colon
    they give [username:password] back, and they are the username and the
    password themselves exactly when the username holds no colon. *)
Theorem decode_of_encode (u p : string) :
  ∃ a b, ParseBasicAuthHeader (BasicAuthHeader u p) = (a, b, None)
    ∧ a +:+ ":" +:+ b = u +:+ ":" +:+ p
    ∧ hasByte ":" a = false
    ∧ ((a, b) = (u, p) ↔ hasByte ":" u = false).
Proof.
  rewrite ParseBasicAuthHeader_BasicAuthHeader.
  destruct (cutByte ":" (u +:+ String ":" p)) as [[a b]|] eqn:Hcut.
  - exists a, b. split; [done|].
    pose proof Hcut as [Heq Ha]%cutByte_inv.
    split; [done|]. split; [done|]. split.
    + by intros [= -> ->].
    + intros Hu. rewrite cutByte_first in Hcut by done. by injection Hcut as -> ->.
  - apply cutByte_None in Hcut. by rewrite hasByte_mid in Hcut.
Qed.

(** A username with a colon comes back cut at the colon. *)
Lemma decode_of_encode_example :
  ParseBasicAuthHeader (BasicAuthHeader "a:b" "c") = ("a", "b:c", None)
  ∧ ∃ a b, ParseBasicAuthHeader (BasicAuthHeader "a:b" "c") = (a, b, None)
      ∧ a +:+ ":" +:+ b = "a:b" +:+ ":" +:+ "c"
      ∧ hasByte ":" a = false
      ∧ ((a, b) = ("a:b", "c") ↔ hasByte ":" "a:b" = false).
Proof. split; [reflexivity | exact (decode_of_encode "a:b" "c")]. Defined.

Lemma EncodeToString_inj (s t : string) :
  EncodeToString s = EncodeToString t → s = t.
Proof.
  intros H. apply (f_equal DecodeString) in H.
  rewrite !DecodeString_EncodeToString in H. by injection H.
Qed.

(** X2.  Two pairs of credentials have the same header exactly when
    [username:password] is the same string for both: the header tells
    the pairs apart as long as no username holds a colon, and not
    otherwise. *)
Theorem BasicAuthHeader_same (u p u' p' : string) :
  (BasicAuthHeader u p = BasicAuthHeader u' p' ↔
   u +:+ ":" +:+ p = u' +:+ ":" +:+ p')
  ∧ (hasByte ":" u = false → hasByte ":" u' = false →
     BasicAuthHeader u p = BasicAuthHeader u' p' → u = u' ∧ p = p').
Proof.
  assert (Hiff : BasicAuthHeader u p = BasicAuthHeader u' p' ↔
                 u +:+ ":" +:+ p = u' +:+ ":" +:+ p').
  { rewrite !BasicAuthHeader_authorization. split.
    - intros H. apply (f_equal (λ h, Get h "Authorization")) in H.
      rewrite !Get_authorization in H. injection H as H.
      by apply EncodeToString_inj.
    - by intros ->. }
  split; [done|]. intros Hu Hu' H%Hiff.
  change (u +:+ String ":" p = u' +:+ String ":" p') in H.
  assert (Some (u, p) = Some (u', p')) as [= -> ->]; [|done].
  rewrite <- (cutByte_first ":" u p Hu), H. by apply cutByte_first.
Qed.

(** The credentials ("a:b", "c") and ("a", "b:c") have one header. *)
Lemma BasicAuthHeader_same_example :
  BasicAuthHeader "a:b" "c" = BasicAuthHeader "a" "b:c".
Proof. apply (proj1 (BasicAuthHeader_same "a:b" "c" "a" "b:c")). reflexivity. Defined.

Lemma sextets_in_alphabet :
  forallb (λ i, hasByte (encodeAt i) encodeStd) sextets = true.
Proof. vm_compute. reflexivity. Qed.

Lemma encodeAt_base64Char (x : Z) : base64Char (encodeAt (Z.land x 0x3F)) = true.
Proof.
  pose proof sextets_in_alphabet as H. rewrite forallb_forall in H.
  unfold base64Char. rewrite H; [done|].
  pose proof (sextet_range x). unfold sextets. apply in_map_iff.
  exists (Z.to_nat (Z.land x 63)). split; [lia|]. apply in_seq. lia.
Qed.

Lemma EncodeToString_base64 (s : string) :
  allChars base64Char (EncodeToString s) = true.
Proof.
  induction s as [|a|a b|a b c rest IH] using string_ind3;
    cbn [EncodeToString allChars]; rewrite ?encodeAt_base64Char, ?IH; reflexivity.
Qed.

(** Four characters for every three bytes, the last group filled up. *)
Lemma length_EncodeToString (s : string) :
  String.length (EncodeToString s) = 4 * ((String.length s + 2) / 3).
Proof.
  induction s as [|a|a b|a b c rest IH] using string_ind3; try reflexivity.
  cbn [EncodeToString String.length]. rewrite IH.
  replace (S (S (S (String.length rest))) + 2) with (1 * 3 + (String.length rest + 2))
    by lia.
  rewrite Nat.div_add_l by lia. lia.
Qed.

(** X3.  The header of [BasicAuthHeader] holds the one key
    "Authorization" with one value: "Basic ", then characters of the
    base64 alphabet and padding only, four for every three bytes of
    [username:password].  So whatever bytes the username and the password
    hold, line breaks and control characters included, none of them
    stands in the header. *)
Theorem BasicAuthHeader_shape (u p : string) :
  ∃ tok, BasicAuthHeader u p = {[ "Authorization" := ["Basic " +:+ tok] ]}
    ∧ dom (BasicAuthHeader u p) = ({[ "Authorization" ]} : gset string)
    ∧ allChars base64Char tok = true
    ∧ String.length tok = 4 * ((String.length u + String.length p + 3) / 3).
Proof.
  exists (EncodeToString (u +:+ ":" +:+ p)).
  split; [done|]. split; [apply dom_singleton_L|].
  split; [apply EncodeToString_base64|].
  rewrite length_EncodeToString, !length_app_String. cbn [String.length].
  do 2 f_equal. lia.
Qed.

(** X4.  [ParseBasicAuthHeader] reads the first value under
    "Authorization" and nothing else: values after the first, and every
    other key of the header, set or deleted, change nothing. *)
Theorem ParseBasicAuthHeader_frame (h : Header) :
  (∀ v rest,
     ParseBasicAuthHeader (<["Authorization" := v :: rest]> h)
     = ParseBasicAuthHeader (authorization v))
  ∧ (∀ key vs, key ≠ "Authorization" →
       ParseBasicAuthHeader (<[key := vs]> h) = ParseBasicAuthHeader h
       ∧ ParseBasicAuthHeader (delete key h) = ParseBasicAuthHeader h).
Proof.
  split.
  - intros v rest. rewrite !ParseBasicAuthHeader_fields, Get_authorization.
    unfold Get. by rewrite lookup_insert_eq.
  - intros key vs Hkey. rewrite !ParseBasicAuthHeader_fields. unfold Get.
    by rewrite lookup_insert_ne, lookup_delete_ne.
Qed.

(** A second Authorization value and a Cookie are not looked at. *)
Lemma ParseBasicAuthHeader_frame_example :
  ParseBasicAuthHeader
    (<["Cookie" := ["x"]]> (<["Authorization" := ["Basic YTpi"; "Basic eDp5"]]> ∅))
  = ("a", "b", None).
Proof.
  destruct (ParseBasicAuthHeader_frame
              (<["Authorization" := ["Basic YTpi"; "Basic eDp5"]]> ∅)) as [_ Hother].
  destruct (Hother "Cookie" ["x"]) as [-> _]; [done|].
  destruct (ParseBasicAuthHeader_frame ∅) as [Hfirst _].
  rewrite Hfirst. reflexivity.
Defined.

End CodecMore.

(** ** More on addresses and pools *)

Module GateMore.

Import Http Utils Net NetFacts GateFacts.
Local Open Scope Z_scope.

(** *** Only addresses are parsed

    What [ParseIP] accepts is written with address characters only, so a
    host name is never taken for an address. *)

Lemma isDigit_addressChar (c : ascii) : isDigit c = true → addressChar c = true.
Proof.
  intros H. unfold addressChar, hexDigit. unfold isDigit in H. by rewrite H.
Qed.

(** The loop of [parseIPv4Fields] reads its whole input. *)
Lemma parseIPv4FieldsLoop_addressChars (s : string) (i : nat) (prev : ascii) (val : Z)
    (pos digLen : nat) (fields : list Z) (res : Z * nat * list Z) :
  parseIPv4FieldsLoop s i prev val pos digLen fields = Some res →
  allChars addressChar s = true.
Proof.
  revert i prev val pos digLen fields.
  induction s as [|c s IH]; intros i prev val pos digLen fields; [done|].
  cbn [parseIPv4FieldsLoop allChars]. destruct (isDigit c) eqn:Hc.
  - destruct (_ && _); [done|]. destruct (_ >? 255); [done|].
    intros H%IH. by rewrite isDigit_addressChar, H.
  - destruct (Ascii.eqb_spec c ".") as [->|]; [|done].
    destruct (_ || _); [done|]. destruct (pos =? 3)%nat; [done|].
    intros H%IH. by rewrite H.
Qed.

Lemma parseIPv4Fields_addressChars (s : string) (fields : list Z) :
  parseIPv4Fields s = Some fields → allChars addressChar s = true.
Proof.
  unfold parseIPv4Fields.
  destruct (parseIPv4FieldsLoop s 0 _ 0 0 0 _) as [res|] eqn:H; [|done].
  intros _. by eapply parseIPv4FieldsLoop_addressChars.
Qed.

(** What a group leaves unread decides. *)
Lemma hexGroupLoop_consumed (s : string) (off : nat) (acc : Z) (n : Z) (c : nat) :
  hexGroupLoop s off acc = Some (n, c) →
  (off <= c)%nat
  ∧ (allChars addressChar (dropString (c - off) s) = true →
     allChars addressChar s = true).
Proof.
  revert off acc. induction s as [|x s IH]; intros off acc; cbn [hexGroupLoop].
  - intros [= <- <-]. by rewrite Nat.sub_diag.
  - destruct (hexDigit x) as [d|] eqn:Hx.
    + destruct (3 <? off)%nat; [done|]. destruct (_ >? 65535); [done|]. intros H.
      apply IH in H as [Hle H].
      split; [lia|]. replace (c - off)%nat with (S (c - S off)) by lia.
      rewrite dropString_cons. intros Hr. cbn [allChars].
      unfold addressChar at 1. by rewrite Hx, H.
    + intros [= <- <-]. by rewrite Nat.sub_diag.
Qed.

Lemma parseIPv6Step_consumed (st st' : v6state) (more : bool) :
  parseIPv6Step st = Some (st', more) →
  allChars addressChar (v6rest st') = true →
  allChars addressChar (v6rest st) = true.
Proof.
  unfold parseIPv6Step. destruct st as [s ip i e]. cbn [v6rest v6ip v6i v6ellipsis].
  destruct (hexGroupLoop s 0 0) as [[n c]|] eqn:Hx; [|done].
  apply hexGroupLoop_consumed in Hx as [_ Hx]. rewrite Nat.sub_0_r in Hx.
  destruct (c =? 0)%nat; [done|].
  destruct (_ && _).
  - destruct (_ && _); [done|]. destruct (_ <? _)%nat; [done|].
    destruct (parseIPv4Fields s) as [fields|] eqn:H4; [|done].
    intros _ _. by eapply parseIPv4Fields_addressChars.
  - destruct (dropString c s) as [|c0 s0] eqn:Hd.
    + intros _ _. by apply Hx.
    + destruct (Ascii.eqb_spec c0 ":") as [->|]; [|done]. cbn [negb].
      destruct (_ =? 1)%nat; [done|].
      assert (allChars addressChar s0 = true → allChars addressChar s = true) as Hs0.
      { intros H. apply Hx. cbn [allChars]. by rewrite H. }
      destruct s0 as [|c1 s1].
      { intros [= <- <-] H. by apply Hs0. }
      destruct (Ascii.eqb c1 ":") eqn:Hc1.
      * apply Ascii.eqb_eq in Hc1 as ->.
        destruct (e >=? 0); [done|].
        destruct s1; intros [= <- <-] H; apply Hs0; cbn [allChars]; by rewrite ?H.
      * intros H.
        match type of H with ?l = _ =>
          assert (l = Some (V6 (String c1 s1)
                              (<[S i:=n mod 256]> (<[i:=(n ≫ 8) mod 256]> ip))
                              (i + 2) e, true)) as Hl end.
        { destruct c1 as [[] [] [] [] [] [] [] []]; try reflexivity. by cbv in Hc1. }
        rewrite Hl in H. injection H as <- <-. exact Hs0.
Qed.

Lemma parseIPv6Loop_consumed (fuel : nat) (st st' : v6state) :
  parseIPv6Loop fuel st = Some st' →
  allChars addressChar (v6rest st') = true →
  allChars addressChar (v6rest st) = true.
Proof.
  revert st. induction fuel as [|fuel IH]; intros st; cbn [parseIPv6Loop].
  - by intros [= <-].
  - destruct (_ <? _)%nat; [|by intros [= <-]].
    destruct (parseIPv6Step st) as [[st1 more]|] eqn:Hs; [|done].
    destruct more.
    + intros H Hr. eapply parseIPv6Step_consumed; [exact Hs|]. by eapply IH.
    + intros [= <-]. by eapply parseIPv6Step_consumed.
Qed.

Lemma parseIPv6Groups_addressChars (s : string) (e : Z) (zone : string) (a : Addr) :
  parseIPv6Groups s e zone = Some a →
  Zone a = zone ∧ allChars addressChar s = true.
Proof.
  unfold parseIPv6Groups.
  destruct (parseIPv6Loop _ _) as [st|] eqn:H; [|done].
  destruct (parseIPv6Finish st) as [ip|] eqn:Hf; [|done].
  intros [= <-]. split; [done|].
  apply parseIPv6Loop_consumed in H; [exact H|].
  unfold parseIPv6Finish in Hf. by destruct (v6rest st).
Qed.

(** An address with a zone is not returned by [ParseIP]; one without is
    written with address characters. *)
Lemma parseIPv6_addressChars (s : string) (a : Addr) :
  parseIPv6 s = Some a → isEmpty (Zone a) = true → allChars addressChar s = true.
Proof.
  unfold parseIPv6.
  destruct (byteIndex s "%" =? -1) eqn:Hi; cbn [negb andb].
  - assert (∀ s', parseIPv6Groups s' 0 EmptyString = Some a →
                  allChars addressChar (String ":" (String ":" s')) = true) as Hell.
    { intros s' H. apply parseIPv6Groups_addressChars in H as [_ H].
      cbn [allChars]. by rewrite H. }
    assert (parseIPv6Groups s (-1) EmptyString = Some a →
            allChars addressChar s = true) as Hplain.
    { intros H. by apply parseIPv6Groups_addressChars in H as [_ H]. }
    destruct s as [|c0 s0]; [intros H _; by apply Hplain|].
    destruct (Ascii.eqb c0 ":") eqn:Hc0.
    + apply Ascii.eqb_eq in Hc0 as ->.
      destruct s0 as [|c1 s1]; [intros H _; by apply Hplain|].
      destruct (Ascii.eqb c1 ":") eqn:Hc1.
      * apply Ascii.eqb_eq in Hc1 as ->.
        destruct s1 as [|c2 s2]; [done|]. intros H _. by apply Hell.
      * intros H _. apply Hplain. rewrite <- H.
        destruct c1 as [[] [] [] [] [] [] [] []]; try reflexivity. by cbv in Hc1.
    + intros H _. apply Hplain. rewrite <- H.
      destruct c0 as [[] [] [] [] [] [] [] []]; try reflexivity. by cbv in Hc0.
  - destruct (isEmpty (dropString _ s)) eqn:Hz; [done|].
    assert (Zone a = dropString (Z.to_nat (byteIndex s "%" + 1)) s →
            isEmpty (Zone a) = true → allChars addressChar s = true) as Hzone.
    { intros ->. by rewrite Hz. }
    intros H. apply Hzone. revert H.
    repeat case_match; first [ by intros [= <-] | by intros [-> _]%parseIPv6Groups_addressChars ].
Qed.

Lemma parseAddrScan_addressChars (s whole : string) (a : Addr) :
  parseAddrScan s whole = Some a → isEmpty (Zone a) = true →
  allChars addressChar whole = true.
Proof.
  induction s as [|c s IH]; cbn [parseAddrScan]; [done|].
  destruct (Ascii.eqb c ".").
  { unfold parseIPv4. destruct (parseIPv4Fields whole) eqn:H; [|done].
    intros _ _. by eapply parseIPv4Fields_addressChars. }
  destruct (Ascii.eqb c ":"); [apply parseIPv6_addressChars|].
  destruct (Ascii.eqb c "%"); [done | exact IH].
Qed.

Lemma ParseIP_addressChars (s : string) :
  ParseIP s ≠ [] → allChars addressChar s = true.
Proof.
  unfold ParseIP, parseIP, ParseAddr.
  destruct (parseAddrScan s s) as [a|] eqn:H; [|done].
  destruct (isEmpty (Zone a)) eqn:Hz; [|done].
  intros _. by eapply parseAddrScan_addressChars.
Qed.

(** X14.  No host name but [localhost] is local: when the host part
    of an address has a character other than a hexadecimal digit, a dot
    or a colon, [isLocalAddr] is true only if the host is exactly
    [localhost]; the name is never looked up. *)
Theorem isLocalAddr_no_lookup (addr host port : string) :
  SplitHostPort addr = (host, port, None) →
  allChars addressChar host = false →
  isLocalAddr addr = String.eqb host "localhost".
Proof.
  intros Hsplit Hname. rewrite (isLocalAddr_split addr host port Hsplit).
  destruct (ParseIP host) as [|b ip] eqn:Hip.
  - apply orb_false_r.
  - rewrite ParseIP_addressChars in Hname; [done|]. by rewrite Hip.
Qed.

(** Names that resolve to the loopback interface on many hosts, and that
    are not local here. *)
Lemma isLocalAddr_no_lookup_examples :
  isLocalAddr "localhost.localdomain:80" = false
  ∧ isLocalAddr "ip6-localhost:80" = false
  ∧ isLocalAddr "LOCALHOST:80" = false.
Proof.
  split; [|split].
  - exact (isLocalAddr_no_lookup "localhost.localdomain:80" "localhost.localdomain" "80"
             eq_refl eq_refl).
  - exact (isLocalAddr_no_lookup "ip6-localhost:80" "ip6-localhost" "80" eq_refl eq_refl).
  - exact (isLocalAddr_no_lookup "LOCALHOST:80" "LOCALHOST" "80" eq_refl eq_refl).
Defined.

(** X13.  An IPv4-mapped IPv6 loopback address is local: for every
    [b], [c] and [d] below 256 and every port, [isLocalAddr] is true for
    [[::ffff:127.b.c.d]:port]. *)
Theorem isLocalAddr_mapped (b c d : nat) (port : string) :
  (b < 256)%nat → (c < 256)%nat → (d < 256)%nat →
  noneOf ":[]" port = true →
  isLocalAddr
    (String "[" (("::ffff:" +:+ dottedQuad 127 b c d) +:+ String "]" (String ":" port)))
  = true.
Proof.
  intros Hb Hc Hd Hp.
  pose proof (noneOf_mapped_text _ (noneOf_dottedQuad 127 b c d ltac:(lia) Hb Hc Hd))
    as Hh.
  rewrite (isLocalAddr_split _ ("::ffff:" +:+ dottedQuad 127 b c d) port).
  - rewrite ParseIP_mapped_127 by assumption. apply orb_true_r.
  - apply SplitHostPort_bracket;
      first [ by apply (noneOf_hasByte "[]") | by apply (noneOf_hasByte ":[]") ].
Qed.

(** [[::ffff:127.0.0.1]:8080] is local. *)
Lemma isLocalAddr_mapped_example : isLocalAddr "[::ffff:127.0.0.1]:8080" = true.
Proof.
  apply (isLocalAddr_mapped 0 0 1 "8080"); first [ lia | reflexivity ].
Defined.

End GateMore.

(** ** More on the client factory *)

Module FactoryMore.

Import Http Utils FactoryFacts.

(** X12.  The trust pool of a client built with certificates holds the
    certificates found in the entries of the list and nothing else: it
    starts empty, so no other root is in it; and it is the same pool for
    both modes. *)
Theorem pool_holds_the_supplied (certificatesOfPEM : string → list X509.Certificate)
    (baselineMinVersion : Z) (baselineCipherSuites : list Z)
    (verify : SSLHostnameVerification) (cert : string) (certs : list string) :
  ∃ c cfg pool,
    GetHTTPClient certificatesOfPEM baselineMinVersion baselineCipherSuites
      verify (cert :: certs) = Some c
    ∧ tlsConfigOf c = Some cfg
    ∧ TLS.RootCAs cfg = Some pool
    ∧ (∀ x, x ∈ pool ↔ ∃ pem, pem ∈ cert :: certs ∧ x ∈ certificatesOfPEM pem)
    ∧ (∀ c' cfg',
         GetHTTPClient certificatesOfPEM baselineMinVersion baselineCipherSuites
           (negb verify) (cert :: certs) = Some c' →
         tlsConfigOf c' = Some cfg' → TLS.RootCAs cfg' = Some pool).
Proof.
  rewrite !GetHTTPClient_certs. do 3 eexists.
  split; [reflexivity|]. split; [reflexivity|]. split; [reflexivity|]. split.
  - intros x. unfold poolOf. rewrite elem_of_appendAll.
    unfold X509.NewCertPool. rewrite elem_of_nil. tauto.
  - by intros c' cfg' [= <-] [= <-].
Qed.

End FactoryMore.
